(** * V20: runs of green candles and their percentage range

    A shallow embedding of [v20.py] and [fetch_stock_data.py].  [v20.py]
    fetches daily candles for a list of NSE symbols, marks each candle
    green or red, numbers the maximal runs of equal colour, computes for
    every run the percentage distance between its highest High and its
    lowest Low, keeps the green runs that reach [PERCENTAGE_THRESHOLD] and
    turns each of them into one summary row.  [fetch_stock_data.py]
    fetches the same candles and saves them, one file per symbol.

    Conventions of the embedding.
    - A [DataFrame] is the list of its rows, in index order.  Every function
      of the source that adds a column returns rows of a wider record type;
      the narrower row is kept as a field, so that "the old columns" of a
      row can always be read back.
    - pandas primitives are given their documented meaning on such a list:
      [df[mask]] is a filter, [Series.unique()] keeps first occurrences in
      order of appearance, [Series.iloc[0]] raises [IndexError] on an empty
      series, assigning a Python list as a column raises [ValueError] when
      the lengths differ.  [df.apply(f, axis=1)] is a map over the rows of
      a frame that has rows; on a frame without rows it returns a frame,
      not a column, and the pipeline raises on it, in [mark_keywords] or in
      [assign_groups] as the pandas installed has it ([pandas]).
    - Prices are [float64] in the source, and so they are here: binary64
      as [SpecFloat] of the Standard Library defines it, with its rounding,
      its overflow to infinity and its two zeros.  A price that comes from
      the download is finite ([finite64]); what is computed from prices
      may be an infinity or NaN (a division by zero is not an exception).
    - A date is a day number; [datetime - timedelta] raises
      [OverflowError] outside the calendar ([sub_days]).
    - Exceptions are values of [result]; code that may raise is written in
      that monad, a [for] loop as [for_each].
    - The pipeline is first embedded without its effects: of [main], the
      symbol list and the frame handed to [save_to_csv].  The scripts with
      their effects ([v20.py] and [fetch_stock_data.py]: the directory
      check, reading the symbol file, the downloads, writing the CSV,
      printing) are embedded a second time, as functions of a [world] that
      answers the calls, returning the trace of calls made and the
      outcome. *)

From Stdlib Require Import ZArith SpecFloat Ascii DecimalString DecimalNat.
From stdpp Require Import list strings sorting gmap.

#[local] Set Warnings "-clear-no-such-hyp".

Local Open Scope Z_scope.
Local Open Scope nat_scope.
Local Open Scope string_scope.
Local Open Scope list_scope.

(** ** Exceptions *)

Inductive exn : Type :=
| IndexError
| ValueError
| AttributeError
| OverflowError
| DownloadError (symbol : string).

Inductive result (A : Type) : Type :=
| Ok (a : A)
| Raise (e : exn).
Arguments Ok {A} a.
Arguments Raise {A} e.

Definition bind {A B : Type} (m : result A) (f : A → result B) : result B :=
  match m with
  | Ok a => f a
  | Raise e => Raise e
  end.

Notation "'let*' x ':=' m 'in' k" := (bind m (λ x, k))
  (at level 10, x name, m at level 100, k at level 200).

(** A [for] loop whose body may raise; [s] is the state the body updates. *)
Fixpoint for_each {A S : Type} (xs : list A) (body : A → S → result S) (s : S)
  : result S :=
  match xs with
  | [] => Ok s
  | x :: xs' => let* s' := body x s in for_each xs' body s'
  end.

(** ** float64

    A [float64] is a value of IEEE-754 binary64 as the Standard Library
    specifies it ([SpecFloat], precision 53, exponent bound 1024): signed
    zeros, finite values [m * 2^e], the two infinities and NaN.  The
    operations are the correctly rounded ones (to nearest, ties to even),
    with overflow to an infinity; a division by zero is not an exception.
    Every comparison with NaN is false, and the two zeros are equal. *)

Definition prec : Z := 53.
Definition emax : Z := 1024.

Definition float64 : Type := spec_float.
Bind Scope Z_scope with float64.

Abbreviation PosInf := (S754_infinity false).
Abbreviation NegInf := (S754_infinity true).
Abbreviation NaN := S754_nan.

Definition fsub (x y : float64) : float64 := SFsub prec emax x y.
Definition fdiv (x y : float64) : float64 := SFdiv prec emax x y.
Definition fmul (x y : float64) : float64 := SFmul prec emax x y.

(** [x < y], [x == y] and [x >= y]. *)
Definition flt (x y : float64) : bool := SFltb x y.
Definition feq (x y : float64) : bool := SFeqb x y.
Definition fge (x y : float64) : bool := SFleb y x.

(** The prices of a candle are finite: a zero of either sign, or
    [m * 2^e] with its sign.  The floats of the program are the canonical
    ones (53 bits of mantissa, as [float_of_Z], [decimal] and the
    operations give them); what is proved for every value of the type
    holds for them. *)
Inductive finite64 : Type :=
| Zero (negative : bool)
| Finite (negative : bool) (m : positive) (e : Z).
Bind Scope Z_scope with finite64.

Definition Fin (x : finite64) : float64 :=
  match x with
  | Zero s => S754_zero s
  | Finite s m e => S754_finite s m e
  end.
Coercion Fin : finite64 >-> float64.

#[global] Instance finite64_eq_dec : EqDecision finite64.
Proof. solve_decision. Defined.

Definition finite_part (x : float64) : finite64 :=
  match x with
  | S754_zero s => Zero s
  | S754_finite s m e => Finite s m e
  | _ => Zero false
  end.

(** The float of an integer literal, and of a decimal literal [n / d]
    (both correctly rounded, as Python reads them). *)
Definition float_of_Z (z : Z) : finite64 :=
  finite_part (binary_normalize prec emax z 0 false).
Coercion float_of_Z : Z >-> finite64.

Definition decimal (n d : Z) : finite64 :=
  finite_part (fdiv (float_of_Z n) (float_of_Z d)).

(** ** pandas primitives *)

(** [Series.min()] and [Series.max()] of a column of finite numbers, as
    numpy reduces it: the value kept so far is replaced by a later one
    only when that one is strictly smaller, resp. greater.  The empty
    series gives NaN. *)
Definition fmin_list (x : finite64) (l : list finite64) : finite64 :=
  fold_left (λ m y : finite64, if flt y m then y else m) l x.
Definition fmax_list (x : finite64) (l : list finite64) : finite64 :=
  fold_left (λ m y : finite64, if flt m y then y else m) l x.

Definition series_min (s : list finite64) : float64 :=
  match s with
  | [] => NaN
  | x :: s' => Fin (fmin_list x s')
  end.
Definition series_max (s : list finite64) : float64 :=
  match s with
  | [] => NaN
  | x :: s' => Fin (fmax_list x s')
  end.

(** [Index.min()] of a date index; [None] stands for [NaT]. *)
Definition index_min (idx : list Z) : option Z :=
  match idx with
  | [] => None
  | d :: idx' => Some (fold_left Z.min idx' d)
  end.

(** [Series.iloc[0]]. *)
Definition iloc0 {A : Type} (s : list A) : result A :=
  match s with
  | [] => Raise IndexError
  | a :: _ => Ok a
  end.

(** [Series.unique()]: the distinct values, in order of first appearance. *)
Fixpoint unique {A : Type} `{EqDecision A} (s : list A) : list A :=
  match s with
  | [] => []
  | a :: s' => a :: filter (λ b, b ≠ a) (unique s')
  end.

(** [Series.shift()]: every value moves one row down, the first row gets
    the missing value. *)
Definition shift {A : Type} (s : list A) : list (option A) :=
  take (length s) (None :: (Some <$> s)).

(** Element-wise [!=] of a column with a shifted column; a missing value
    differs from everything. *)
Definition series_ne {A : Type} `{EqDecision A} (s : list A) (t : list (option A))
  : list bool :=
  zip_with (λ a o, match o with
                   | None => true
                   | Some b => bool_decide (a ≠ b)
                   end) s t.

(** [Series.cumsum()] of a boolean column ([True] counts 1). *)
Fixpoint cumsum_from (acc : nat) (s : list bool) : list nat :=
  match s with
  | [] => []
  | b :: s' =>
      let acc' := acc + (if b then 1 else 0) in
      acc' :: cumsum_from acc' s'
  end.
Definition cumsum (s : list bool) : list nat := cumsum_from 0 s.

(** [df[name]]: the column read off the rows. *)
Definition col {R C : Type} (df : list R) (name : R → C) : list C := name <$> df.

(** [df[name] = values] for a Python list [values]. *)
Definition set_column {R C R' : Type} (mk : R → C → R') (df : list R)
    (values : list C) : result (list R') :=
  if decide (length values = length df) then Ok (zip_with mk df values)
  else Raise ValueError.

(** [str(n)] of a non-negative integer. *)
Definition str (n : nat) : string := NilEmpty.string_of_uint (Nat.to_uint n).

(** [sub in s] on strings. *)
Fixpoint str_in (sub s : string) : bool :=
  String.prefix sub s ||
  match s with
  | EmptyString => false
  | String _ s' => str_in sub s'
  end.

(** [s.endswith(suffix)]. *)
Definition endswith (s suffix : string) : bool :=
  bool_decide (String.length suffix ≤ String.length s)%nat &&
  String.eqb
    (String.substring (String.length s - String.length suffix)
       (String.length suffix) s) suffix.

(** ** Rows *)

(** A row of the frame [yf.download] returns; the index is the date (a day
    number).  The columns [Adj Close] and [Volume] are never read and are
    left out. *)
Record Quote : Type := mkQuote {
  Date : Z;
  Open : finite64;
  High : finite64;
  Low : finite64;
  Close : finite64
}.

(** ... with the [Symbol] column of [fetch_stock_data]. *)
Record Bar : Type := mkBar {
  quote :> Quote;
  Symbol : string
}.

(** ... with the [Keyword] column of [mark_keywords]. *)
Record Marked : Type := mkMarked {
  bar :> Bar;
  Keyword : string
}.

(** ... with the [GroupID] and [Group] columns of [assign_groups]. *)
Record Grouped : Type := mkGrouped {
  marked :> Marked;
  GroupID : nat;
  Group : string
}.

(** ... with the [PercentageDifference] column. *)
Record Scored : Type := mkScored {
  grouped :> Grouped;
  PercentageDifference : float64
}.

(** ... with the [ValidGroup] column. *)
Record Flagged : Type := mkFlagged {
  scored :> Scored;
  ValidGroup : string
}.

(** A row of the frame [transform_valid_groups] builds. *)
Record Summary : Type := mkSummary {
  Summary_Symbol : string;
  Lowest_Low : float64;
  Highest_High : float64;
  Earliest_Date : option Z;
  Percentage_Difference : float64;
  Summary_ValidGroup : string
}.

(** ** The stages of the pipeline *)

(** [df.apply(f, axis=1)] on a frame without rows calls [f] on no row and
    returns an empty frame, not a column of strings.  What the assignment
    [stock_data['Keyword'] = ...] does with it depends on the pandas
    installed: it raises [ValueError], or it stores a [Keyword] column
    without rows that is not a column of strings. *)
Inductive pandas : Type :=
| rejects_empty_frame
| assigns_empty_frame.

(** A frame with its [Keyword] column: rows labelled with strings, or the
    frame without rows whose [Keyword] column is not one of strings. *)
Inductive Keyword_frame : Type :=
| Strings (rows : list Marked)
| NotStrings.

Definition mark_keywords (pd : pandas) (stock_data : list Bar)
  : result Keyword_frame :=
  match stock_data with
  | [] =>
      match pd with
      | rejects_empty_frame => Raise ValueError
      | assigns_empty_frame => Ok NotStrings
      end
  | _ =>
      Ok (Strings
            ((λ row, mkMarked row
                       (if flt (Open row) (Close row) then "green" else "red"))
               <$> stock_data))
  end.

(** [Series.str] raises [AttributeError] on a column that is not one of
    strings. *)
Definition assign_groups (stock_data : Keyword_frame) : result (list Grouped) :=
  match stock_data with
  | NotStrings => Raise AttributeError
  | Strings stock_data =>
      let keyword := col stock_data Keyword in
      let group_id := cumsum (series_ne keyword (shift keyword)) in
      let group := zip_with (λ k g, k +:+ "_" +:+ str g) keyword group_id in
      Ok (zip_with (λ row gg, mkGrouped row gg.1 gg.2) stock_data (zip group_id group))
  end.

Definition calculate_percentage_differences (stock_data : list Grouped)
  : result (list Scored) :=
  let* percentage_diffs :=
    for_each (unique (col stock_data GroupID)) (λ group_id percentage_diffs,
      let group_data := filter (λ row, GroupID row = group_id) stock_data in
      let lowest_low := series_min (col group_data (λ row, Low row)) in
      let highest_high := series_max (col group_data (λ row, High row)) in
      let percentage_diff :=
        fmul (fdiv (fsub highest_high lowest_low) lowest_low) (Fin 100) in
      Ok (percentage_diffs ++ replicate (length group_data) percentage_diff))
      [] in
  set_column mkScored stock_data percentage_diffs.

(** The module constant [PERCENTAGE_THRESHOLD] is read by
    [identify_valid_groups] only; it is a parameter here, so that the
    behaviour under every threshold can be stated. *)
Definition identify_valid_groups (PERCENTAGE_THRESHOLD : float64)
    (stock_data : list Scored) : result (list Flagged) :=
  let* valid_groups :=
    for_each (unique (col stock_data Group)) (λ group_name valid_groups,
      if str_in "green" group_name then
        let group_data := filter (λ row : Scored, Group row = group_name) stock_data in
        let* percentage_diff := iloc0 (col group_data (λ row, PercentageDifference row)) in
        if fge percentage_diff PERCENTAGE_THRESHOLD
        then Ok (valid_groups ++ [group_name])
        else Ok valid_groups
      else Ok valid_groups) [] in
  Ok ((λ row, mkFlagged row
         (if bool_decide (Group row ∈ valid_groups) then Group row else ""))
        <$> stock_data).

Definition remove_invalid_rows (stock_data : list Flagged) : list Flagged :=
  filter (λ row, ValidGroup row ≠ "") stock_data.

Definition transform_valid_groups (stock_data : list Flagged)
  : result (list Summary) :=
  for_each (unique (col stock_data ValidGroup)) (λ group_name transformed_data,
    if bool_decide (group_name ≠ "") then
      let group_data := filter (λ row, ValidGroup row = group_name) stock_data in
      let* symbol := iloc0 (col group_data (λ row, Symbol row)) in
      let lowest_low := series_min (col group_data (λ row, Low row)) in
      let highest_high := series_max (col group_data (λ row, High row)) in
      let earliest_date := index_min (col group_data (λ row, Date row)) in
      let* percentage_diff := iloc0 (col group_data (λ row, PercentageDifference row)) in
      Ok (transformed_data ++
            [mkSummary symbol lowest_low highest_high earliest_date
               percentage_diff group_name])
    else Ok transformed_data) [].

(** What the loop of [main] does with the frame of one symbol, from
    [mark_keywords] to [transform_valid_groups]. *)
Definition process (pd : pandas) (threshold : float64) (stock_data : list Bar)
  : result (list Summary) :=
  let* stock_data := mark_keywords pd stock_data in
  let* stock_data := assign_groups stock_data in
  let* stock_data := calculate_percentage_differences stock_data in
  let* stock_data := identify_valid_groups threshold stock_data in
  let stock_data := remove_invalid_rows stock_data in
  transform_valid_groups stock_data.

Definition PERCENTAGE_THRESHOLD : float64 := 20.

(** What the six stages raise on a frame without rows: [ValueError] from
    the assignment in [mark_keywords], or [AttributeError] from
    [Series.str] in [assign_groups]. *)
Definition empty_frame_error (pd : pandas) : exn :=
  match pd with
  | rejects_empty_frame => ValueError
  | assigns_empty_frame => AttributeError
  end.

(** ** Fetching and the orchestrator *)

(** A date is the day number [date.toordinal()] gives it: 1 is
    0001-01-01 and 3652059 is 9999-12-31.  [timedelta(days=n_days)] raises
    [OverflowError] beyond 999999999 days, and so does the subtraction
    when the day it gives is not a date. *)
Definition sub_days (date n_days : Z) : result Z :=
  if bool_decide (Z.abs n_days ≤ 999999999)%Z
     && bool_decide (1 ≤ date - n_days ≤ 3652059)%Z
  then Ok (date - n_days)%Z
  else Raise OverflowError.

Section Orchestrator.
(** The pandas installed, and [yf.download(symbol, start, end)]: the
    network call, which may raise. *)
Variable pd : pandas.
Variable download : string → Z → Z → result (list Quote).

Definition fetch_stock_data (symbol : string) (start_date end_date : Z)
  : result (list Bar) :=
  let oldSymbol := symbol in
  let symbol := if endswith symbol ".NS" then symbol else symbol +:+ ".NS" in
  let* stock_data := download symbol start_date end_date in
  Ok ((λ row, mkBar row oldSymbol) <$> stock_data).

(** [main]: [today] is [datetime.today()], [symbols] what
    [read_symbols_from_csv] returns; the value is the frame handed to
    [save_to_csv].  No exception is caught anywhere in [main]. *)
Definition main (today : Z) (n_days : Z) (symbols : list string)
  : result (list Summary) :=
  let end_date := today in
  let* start_date := sub_days end_date n_days in
  for_each symbols (λ symbol combined_data,
    let* stock_data := fetch_stock_data symbol start_date end_date in
    let* stock_data := process pd PERCENTAGE_THRESHOLD stock_data in
    Ok (combined_data ++ stock_data)) [].
End Orchestrator.

(** The body of the loop of [main], for the proofs about the loop. *)
Definition main_body (pd : pandas) (download : string → Z → Z → result (list Quote))
    (start_date end_date : Z) (symbol : string) (combined_data : list Summary)
  : result (list Summary) :=
  let* stock_data := fetch_stock_data download symbol start_date end_date in
  let* stock_data := process pd PERCENTAGE_THRESHOLD stock_data in
  Ok (combined_data ++ stock_data).

(** ** Sample inputs *)

(** A green candle whose Low is 0: O = 0, H = 1, L = 0, C = 1. *)
Definition zero_low_bar : Bar := mkBar (mkQuote 1 0 1 0 1) "X".

(** Four candles: a green run of two with range 66.7 %, a red candle, a
    green run of one with range 25 %. *)
Definition two_runs : list Bar :=
  [mkBar (mkQuote 1 10 12 9 11) "X"; mkBar (mkQuote 2 11 15 10 14) "X";
   mkBar (mkQuote 3 14 14 13 13) "X"; mkBar (mkQuote 4 10 (decimal 125 10) 10 12) "X"].

(** A download that raises for [BAD.NS], finds nothing for [EMPTY.NS] and
    returns the two candles of Scenario A for every other symbol. *)
Definition sample_download (symbol : string) (start_date end_date : Z)
  : result (list Quote) :=
  if String.eqb symbol "BAD.NS" then Raise (DownloadError symbol)
  else if String.eqb symbol "EMPTY.NS" then Ok []
  else Ok [mkQuote 1 10 12 9 11; mkQuote 2 11 15 10 14].

(** ** The labelled frames, for the proofs

    The frame [mark_keywords] returns for a frame with rows, and the one
    [assign_groups] returns for a frame labelled with strings. *)
Definition with_keyword (stock_data : list Bar) : list Marked :=
  (λ row, mkMarked row (if flt (Open row) (Close row) then "green" else "red"))
    <$> stock_data.

Definition with_groups (stock_data : list Marked) : list Grouped :=
  let keyword := col stock_data Keyword in
  let group_id := cumsum (series_ne keyword (shift keyword)) in
  let group := zip_with (λ k g, k +:+ "_" +:+ str g) keyword group_id in
  zip_with (λ row gg, mkGrouped row gg.1 gg.2) stock_data (zip group_id group).

(** ** What the specification calls runs

    The definitions of this section follow the words of the specification,
    not the code: a run is a maximal block of consecutive candles of one
    colour, runs are numbered from 1 in date order, and the statistics of
    a run are taken over its members. *)

Record Run : Type := mkRun {
  run_id : nat;
  first : Marked;
  rest : list Marked
}.

Definition members (r : Run) : list Marked := first r :: rest r.
Definition direction (r : Run) : string := Keyword (first r).

(** Maximal blocks of equal [Keyword], each as its first row and the rows
    that follow it. *)
Fixpoint segment (l : list Marked) : list (Marked * list Marked) :=
  match l with
  | [] => []
  | x :: l' =>
      match segment l' with
      | (y, ys) :: blocks =>
          if decide (Keyword x = Keyword y) then (x, y :: ys) :: blocks
          else (x, []) :: (y, ys) :: blocks
      | [] => [(x, [])]
      end
  end.

Fixpoint number_from (n : nat) (blocks : list (Marked * list Marked)) : list Run :=
  match blocks with
  | [] => []
  | (x, xs) :: blocks' => mkRun n x xs :: number_from (S n) blocks'
  end.

Definition runs (l : list Marked) : list Run := number_from 1 (segment l).

Definition run_low (r : Run) : float64 :=
  series_min (col (members r) (λ row, Low row)).
Definition run_high (r : Run) : float64 :=
  series_max (col (members r) (λ row, High row)).
Definition range_pct (r : Run) : float64 :=
  fmul (fdiv (fsub (run_high r) (run_low r)) (run_low r)) (Fin 100).

Definition group_key (r : Run) : string := direction r +:+ "_" +:+ str (run_id r).

(** A breakout candidate: an up run whose range reaches the threshold. *)
Definition qualifies (threshold : float64) (r : Run) : Prop :=
  direction r = "green" ∧ fge (range_pct r) threshold = true.

#[global] Instance qualifies_dec threshold r : Decision (qualifies threshold r).
Proof. unfold qualifies. apply _. Defined.

Definition summary_of (r : Run) : Summary :=
  mkSummary (Symbol (first r)) (run_low r) (run_high r)
    (index_min (col (members r) (λ row, Date row))) (range_pct r) (group_key r).

(** Consecutive entries differ: what makes a list of blocks maximal. *)
Fixpoint alternating (keywords : list string) : Prop :=
  match keywords with
  | k1 :: (k2 :: _) as rest => k1 ≠ k2 ∧ alternating rest
  | _ => True
  end.

(** The rows of a run as each stage leaves them. *)
Definition grouped_rows (r : Run) : list Grouped :=
  (λ row, mkGrouped row (run_id r) (group_key r)) <$> members r.
Definition scored_rows (r : Run) : list Scored :=
  (λ row, mkScored row (range_pct r)) <$> grouped_rows r.
Definition flagged_rows (threshold : float64) (r : Run) : list Flagged :=
  (λ row, mkFlagged row (if decide (qualifies threshold r) then group_key r else ""))
    <$> scored_rows r.

(** [m] is a least, resp. greatest, element of the column [xs]. *)
Definition is_min (m : finite64) (xs : list finite64) : Prop :=
  m ∈ xs ∧ Forall (λ x : finite64, fge x m = true) xs.
Definition is_max (m : finite64) (xs : list finite64) : Prop :=
  m ∈ xs ∧ Forall (λ x : finite64, fge m x = true) xs.
Definition is_earliest (d : Z) (idx : list Z) : Prop :=
  d ∈ idx ∧ Forall (λ x, (d ≤ x)%Z) idx.

(** Frames whose [Keyword] column holds the two colours only, as
    [mark_keywords] writes it. *)
Definition two_coloured (l : list Marked) : Prop :=
  Forall (λ row, Keyword row = "green" ∨ Keyword row = "red") l.

(** What the loop of [calculate_percentage_differences] computes from the
    rows of one group. *)
Definition percentage_diff_of (group_data : list Grouped) : float64 :=
  let lowest_low := series_min (col group_data (λ row, Low row)) in
  let highest_high := series_max (col group_data (λ row, High row)) in
  fmul (fdiv (fsub highest_high lowest_low) lowest_low) (Fin 100).

(** The [GroupID] column as one pass over the [Keyword] column: [prev] is
    the keyword of the row above, [acc] the running count. *)
Fixpoint gids_from (prev : option string) (acc : nat) (kw : list string)
  : list nat :=
  match kw with
  | [] => []
  | k :: kw' =>
      let acc' := acc + (if bool_decide (Some k ≠ prev) then 1 else 0) in
      acc' :: gids_from (Some k) acc' kw'
  end.

(** ** The scripts and the world around them

    [v20.py] and [fetch_stock_data.py] as they run.  Every call that
    leaves the program is an [event] of the trace, in the order the calls
    are made; what the world answers is read from a [world].  A call that
    raises is in the trace (it was made), nothing after it is.  The data
    of a [ToCsv] event is the frame handed to [DataFrame.to_csv]. *)

Inductive event (D : Type) : Type :=
| Download (ticker : string) (start_date end_date : Z)
| ReadCsv (file_path : string)
| MakeDirs (path : string)
| ToCsv (csv_file_path : string) (data : D)
| Print (line : string).
Arguments Download {D} ticker start_date end_date.
Arguments ReadCsv {D} file_path.
Arguments MakeDirs {D} path.
Arguments ToCsv {D} csv_file_path data.
Arguments Print {D} line.

(** What a script can die of: an exception of the download or of the
    pipeline, a column that is not there, a failure of the file system. *)
Inductive raised : Type :=
| Pipeline (e : exn)
| KeyError (key : string)
| OSError (path : string).

Inductive outcome (A : Type) : Type :=
| Returned (a : A)
| Raised (e : raised).
Arguments Returned {A} a.
Arguments Raised {A} e.

Definition of_result {A : Type} (r : result A) : outcome A :=
  match r with
  | Ok a => Returned a
  | Raise e => Raised (Pipeline e)
  end.

(** A computation with effects: its trace and how it ended. *)
Definition io (D A : Type) : Type := list (event D) * outcome A.

Definition io_ret {D A : Type} (a : A) : io D A := ([], Returned a).

Definition io_bind {D A B : Type} (m : io D A) (f : A → io D B) : io D B :=
  match m.2 with
  | Returned a => (m.1 ++ (f a).1, (f a).2)
  | Raised e => (m.1, Raised e)
  end.

Notation "'let!' x ':=' m 'in' k" := (io_bind m (λ x, k))
  (at level 10, x name, m at level 100, k at level 200).

(** One call to the world and its answer. *)
Definition call {D A : Type} (ev : event D) (answer : outcome A) : io D A :=
  ([ev], answer).

Fixpoint for_io {D A S : Type} (xs : list A) (body : A → S → io D S) (s : S)
  : io D S :=
  match xs with
  | [] => io_ret s
  | x :: xs' => let! s' := body x s in for_io xs' body s'
  end.

Record world : Type := mkWorld {
  pandas_installed : pandas;
  datetime_today : Z;
  os_path_exists : string → bool;
  os_makedirs : string → outcome unit;
  pd_read_csv : string → outcome (gmap string (list string));
  yf_download : string → Z → Z → result (list Quote);
  to_csv : string → outcome unit
}.

(** [s.split('.')[0]]: what comes before the first dot. *)
Fixpoint split_dot_0 (s : string) : string :=
  match s with
  | EmptyString => ""
  | String c s' => if Ascii.eqb c "."%char then "" else String c (split_dot_0 s')
  end.

(** [os.path.join(path, b)] of [posixpath]. *)
Definition os_path_join (path b : string) : string :=
  if String.prefix "/" b then b
  else if bool_decide (path = "") || endswith path "/" then path +:+ b
  else path +:+ "/" +:+ b.

Module V20.
Section script.
Variable w : world.

Definition fetch_stock_data (symbol : string) (start_date end_date : Z)
  : io (list Summary) (list Bar) :=
  let oldSymbol := symbol in
  let symbol := if endswith symbol ".NS" then symbol else symbol +:+ ".NS" in
  let! stock_data :=
    call (Download symbol start_date end_date)
      (of_result (yf_download w symbol start_date end_date)) in
  io_ret ((λ row, mkBar row oldSymbol) <$> stock_data).

Definition save_to_csv (stock_data : list Summary) (symbol output_dir : string)
  : io (list Summary) unit :=
  let csv_file_path :=
    os_path_join output_dir (split_dot_0 symbol +:+ "_stock_data.csv") in
  let! _ := call (ToCsv csv_file_path stock_data) (to_csv w csv_file_path) in
  call (Print ("Data for " +:+ symbol +:+ " fetched and saved to "
               +:+ csv_file_path +:+ "."))
    (Returned tt).

Definition read_symbols_from_csv (file_path : string)
  : io (list Summary) (list string) :=
  let! df := call (ReadCsv file_path) (pd_read_csv w file_path) in
  match df !! "symbol" with
  | Some column => io_ret column
  | None => ([], Raised (KeyError "symbol"))
  end.

Definition main (n_days : Z) (csv_file output_dir : string)
  : io (list Summary) unit :=
  let end_date := datetime_today w in
  let! start_date := ([], of_result (sub_days end_date n_days)) in
  let! _ :=
    if os_path_exists w output_dir then io_ret tt
    else call (MakeDirs output_dir) (os_makedirs w output_dir) in
  let! symbols := read_symbols_from_csv csv_file in
  let! combined_data :=
    for_io symbols (λ symbol combined_data,
      let! stock_data := fetch_stock_data symbol start_date end_date in
      let! stock_data :=
        ([], of_result (process (pandas_installed w) PERCENTAGE_THRESHOLD stock_data)) in
      io_ret (combined_data ++ stock_data)) [] in
  save_to_csv combined_data "Combined" output_dir.

(** The script: [python v20.py n_days csv_file]. *)
Definition script (n_days : Z) (csv_file : string) : io (list Summary) unit :=
  if os_path_exists w csv_file then main n_days csv_file "data"
  else call (Print ("Error: The file " +:+ csv_file +:+ " does not exist."))
         (Returned tt).
End script.
End V20.

Module FetchStockData.
Section script.
Variable w : world.

Definition fetch_and_save_stock_data (symbols : list string) (n_days : Z)
    (output_dir : string) : io (list Quote) unit :=
  let end_date := datetime_today w in
  let! start_date := ([], of_result (sub_days end_date n_days)) in
  let! _ :=
    if os_path_exists w output_dir then io_ret tt
    else call (MakeDirs output_dir) (os_makedirs w output_dir) in
  for_io symbols (λ symbol _,
    let symbol := if endswith symbol ".NS" then symbol else symbol +:+ ".NS" in
    let! stock_data :=
      call (Download symbol start_date end_date)
        (of_result (yf_download w symbol start_date end_date)) in
    let csv_file_path :=
      os_path_join output_dir (split_dot_0 symbol +:+ "_stock_data.csv") in
    let! _ := call (ToCsv csv_file_path stock_data) (to_csv w csv_file_path) in
    call (Print ("Data for " +:+ symbol +:+ " fetched and saved to "
                 +:+ csv_file_path +:+ "."))
      (Returned tt)) tt.

Definition read_symbols_from_csv (file_path : string)
  : io (list Quote) (list string) :=
  let! df := call (ReadCsv file_path) (pd_read_csv w file_path) in
  match df !! "symbol" with
  | Some column => io_ret column
  | None => ([], Raised (KeyError "symbol"))
  end.

(** The script: [python fetch_stock_data.py n_days csv_file]. *)
Definition script (n_days : Z) (csv_file : string) : io (list Quote) unit :=
  if os_path_exists w csv_file then
    let! symbols := read_symbols_from_csv csv_file in
    fetch_and_save_stock_data symbols n_days "Data"
  else call (Print ("Error: The file " +:+ csv_file +:+ " does not exist."))
         (Returned tt).
End script.
End FetchStockData.

(** For the statements about the traces: the ticker a symbol is fetched
    under, the events of the directory check, the symbols whose download is
    attempted by [v20.py] (all up to the first whose download raises or
    returns no row, that one included), and
    what [fetch_and_save_stock_data] does for one symbol. *)
Definition ticker_of (symbol : string) : string :=
  if endswith symbol ".NS" then symbol else symbol +:+ ".NS".

Definition dir_events {D : Type} (w : world) (output_dir : string) : list (event D) :=
  if os_path_exists w output_dir then [] else [MakeDirs output_dir].

Definition dir_ready (w : world) (output_dir : string) : Prop :=
  os_path_exists w output_dir = true ∨ os_makedirs w output_dir = Returned tt.

Fixpoint attempted (w : world) (start_date end_date : Z) (symbols : list string)
  : list string :=
  match symbols with
  | [] => []
  | symbol :: symbols' =>
      symbol ::
      match yf_download w (ticker_of symbol) start_date end_date with
      | Ok (_ :: _) => attempted w start_date end_date symbols'
      | Ok [] | Raise _ => []
      end
  end.

Definition csv_path (output_dir symbol : string) : string :=
  os_path_join output_dir (split_dot_0 symbol +:+ "_stock_data.csv").

Definition saved_events (w : world) (start_date end_date : Z) (output_dir : string)
    (symbol : string) : list (event (list Quote)) :=
  match yf_download w (ticker_of symbol) start_date end_date with
  | Ok stock_data =>
      [Download (ticker_of symbol) start_date end_date;
       ToCsv (csv_path output_dir (ticker_of symbol)) stock_data;
       Print ("Data for " +:+ ticker_of symbol +:+ " fetched and saved to "
              +:+ csv_path output_dir (ticker_of symbol) +:+ ".")]
  | Raise _ => [Download (ticker_of symbol) start_date end_date]
  end.

(** A world for the examples: the directory is there, the symbol file
    lists three symbols, [sample_download] answers, every write works. *)
Definition sample_world : world :=
  mkWorld rejects_empty_frame 738886 (λ _, true) (λ _, Returned tt)
    (λ _, Returned {["symbol" := ["GOOD"; "BAD"; "ALSO.NS"]]})
    sample_download (λ _, Returned tt).

Definition sample_world_ok : world :=
  mkWorld assigns_empty_frame 738886 (λ _, false) (λ _, Returned tt)
    (λ _, Returned {["symbol" := ["GOOD"; "ALSO.NS"]]})
    sample_download (λ _, Returned tt).


(** The shape every frame of the pipeline has: consecutive blocks of rows,
    one key per block, no key used twice.  [rs] lists what the blocks stand
    for, [key_of r] is the key of a block and [rows_of r] its rows, so the
    frame is [concat (rows_of <$> rs)]. *)
Definition blocked {A K R : Type} (key : A → K) (key_of : R → K)
    (rows_of : R → list A) (rs : list R) : Prop :=
  NoDup (key_of <$> rs) ∧
  Forall (λ r, rows_of r ≠ [] ∧ Forall (λ a, key a = key_of r) (rows_of r)) rs.

(** * Proofs *)

(** ** The monad and the loop *)

Lemma for_each_app {A S} (xs ys : list A) (body : A → S → result S) s :
  for_each (xs ++ ys) body s =
  let* s' := for_each xs body s in for_each ys body s'.
Proof.
  revert s. induction xs as [|x xs IH]; intros s; simpl; [done|].
  destruct (body x s) as [s'|e]; simpl; [apply IH|done].
Qed.

Lemma for_each_fmap {A B S} (f : A → B) (xs : list A) (body : B → S → result S) s :
  for_each (f <$> xs) body s = for_each xs (λ x, body (f x)) s.
Proof.
  revert s. induction xs as [|x xs IH]; intros s; simpl; [done|].
  destruct (body (f x) s); simpl; auto.
Qed.

(** A loop whose body appends [h x] to the state, for every [x] it meets. *)
Lemma for_each_append {A C} (xs : list A) (body : A → list C → result (list C))
    (h : A → list C) s :
  (∀ x s, x ∈ xs → body x s = Ok (s ++ h x)) →
  for_each xs body s = Ok (s ++ concat (h <$> xs)).
Proof.
  revert s. induction xs as [|x xs IH]; intros s Hbody; simpl.
  - by rewrite app_nil_r.
  - rewrite Hbody by left. simpl. rewrite IH.
    + by rewrite <-(assoc_L (++)).
    + intros y s' Hy. apply Hbody. by right.
Qed.

(** ** [unique] and grouping by key *)

Section unique.
Context {A : Type} `{EqDecision A}.
Implicit Types s : list A.

Lemma elem_of_unique s x : x ∈ unique s ↔ x ∈ s.
Proof.
  induction s as [|a s IH]; simpl; [done|].
  rewrite !elem_of_cons, list_elem_of_filter, IH.
  destruct (decide (x = a)); naive_solver.
Qed.

Lemma NoDup_unique s : NoDup (unique s).
Proof.
  induction s as [|a s IH]; simpl; [constructor|].
  apply NoDup_cons. split; [|by apply NoDup_filter].
  rewrite list_elem_of_filter. naive_solver.
Qed.

Lemma filter_all (P : A → Prop) `{∀ x, Decision (P x)} s :
  Forall P s → filter P s = s.
Proof.
  induction 1 as [|x s HP _ IH]; [done|].
  by rewrite filter_cons_True, IH.
Qed.

Lemma filter_none (P : A → Prop) `{∀ x, Decision (P x)} s :
  Forall (λ x, ¬ P x) s → filter P s = [].
Proof.
  induction 1 as [|x s HP _ IH]; [done|].
  by rewrite filter_cons_False.
Qed.

Lemma filter_ne_idemp a s :
  filter (λ b, b ≠ a) (filter (λ b, b ≠ a) s) = filter (λ b, b ≠ a) s.
Proof.
  apply filter_all, Forall_forall. intros x Hx.
  by apply list_elem_of_filter in Hx as [? _].
Qed.

(** Rows of the key [a] in front of a column do not change what [unique]
    lists after [a]. *)
Lemma unique_skip a s1 s2 :
  Forall (λ b, b = a) s1 →
  filter (λ b, b ≠ a) (unique (s1 ++ s2)) = filter (λ b, b ≠ a) (unique s2).
Proof.
  induction 1 as [|b s1 -> _ IH]; [done|]. simpl.
  rewrite filter_cons_False by naive_solver.
  by rewrite filter_ne_idemp.
Qed.
End unique.

Section blocked.
Context {A K R : Type} `{EqDecision K}.
Context (key : A → K) (key_of : R → K) (rows_of : R → list A).
Implicit Types rs : list R.

Lemma blocked_cons_inv r rs :
  blocked key key_of rows_of (r :: rs) →
  (key_of r ∉ key_of <$> rs) ∧ rows_of r ≠ [] ∧
  Forall (λ a, key a = key_of r) (rows_of r) ∧ blocked key key_of rows_of rs.
Proof.
  intros [Hnd Hall]. rewrite fmap_cons in Hnd.
  apply NoDup_cons in Hnd as [Hk Hnd].
  apply Forall_cons in Hall as [[Hne Hb] Hall]. by repeat split.
Qed.

Lemma unique_blocked rs :
  blocked key key_of rows_of rs →
  unique (key <$> concat (rows_of <$> rs)) = key_of <$> rs.
Proof.
  induction rs as [|r rs IH]; [done|].
  intros (Hk & Hne & Hb & Hbs)%blocked_cons_inv.
  rewrite !fmap_cons. cbn [concat]. rewrite fmap_app.
  destruct (rows_of r) as [|a b]; [done|]. apply Forall_cons in Hb as [Ha Hb].
  rewrite fmap_cons. cbn [unique app]. rewrite Ha. f_equal.
  rewrite unique_skip by (by apply Forall_fmap).
  rewrite IH by done. apply filter_all, Forall_forall. naive_solver.
Qed.

Lemma filter_key_absent k rs :
  blocked key key_of rows_of rs → k ∉ key_of <$> rs →
  filter (λ a, key a = k) (concat (rows_of <$> rs)) = [].
Proof.
  induction rs as [|r rs IH]; [done|].
  intros (_ & _ & Hb & Hbs)%blocked_cons_inv Hk.
  rewrite fmap_cons in Hk. rewrite fmap_cons. cbn [concat].
  apply not_elem_of_cons in Hk as [Hne Hk].
  rewrite filter_app, IH, app_nil_r by done.
  apply filter_none. eapply Forall_impl; [apply Hb|]. intros a Ha Ha'. congruence.
Qed.

Lemma filter_blocked r rs :
  blocked key key_of rows_of rs → r ∈ rs →
  filter (λ a, key a = key_of r) (concat (rows_of <$> rs)) = rows_of r.
Proof.
  induction rs as [|r' rs IH]; [by intros _ ?%elem_of_nil|].
  intros (Hk & _ & Hb & Hbs)%blocked_cons_inv Hin.
  rewrite fmap_cons. cbn [concat]. rewrite filter_app.
  apply elem_of_cons in Hin as [->|Hin].
  - rewrite filter_key_absent, app_nil_r by done. by apply filter_all.
  - rewrite IH by done.
    assert (key_of r ≠ key_of r') as Hne.
    { intros Heq. apply Hk. rewrite <-Heq. by apply list_elem_of_fmap_2. }
    rewrite filter_none; [done|].
    eapply Forall_impl; [apply Hb|]. intros a Ha Ha'. congruence.
Qed.

(** A loop over the unique keys of a blocked frame that looks its group up
    with a mask visits the blocks in order. *)
Lemma for_each_groups {C} rs (body : K → list A → list C → result (list C))
    (h : R → list C) s :
  blocked key key_of rows_of rs →
  (∀ r s, r ∈ rs → body (key_of r) (rows_of r) s = Ok (s ++ h r)) →
  for_each (unique (col (concat (rows_of <$> rs)) key))
    (λ k s, body k (filter (λ a, key a = k) (concat (rows_of <$> rs))) s) s
  = Ok (s ++ concat (h <$> rs)).
Proof.
  intros Hbs Hbody. unfold col. rewrite unique_blocked, for_each_fmap by done.
  apply for_each_append. intros r s' Hin.
  rewrite filter_blocked by done. by apply Hbody.
Qed.

(** Keeping the blocks that satisfy [P] keeps the shape. *)
Lemma blocked_filter (P : R → Prop) `{∀ r, Decision (P r)} rs :
  blocked key key_of rows_of rs → blocked key key_of rows_of (filter P rs).
Proof.
  intros [Hnd Hall]. split.
  - clear Hall. induction rs as [|r rs IH]; [constructor|].
    rewrite fmap_cons in Hnd. apply NoDup_cons in Hnd as [Hk Hnd].
    rewrite filter_cons. case_decide; [|by apply IH].
    rewrite fmap_cons. apply NoDup_cons. split; [|by apply IH].
    intros (r' & Heq & [_ Hin]%list_elem_of_filter)%list_elem_of_fmap.
    apply Hk. rewrite Heq. by apply list_elem_of_fmap_2.
  - rewrite Forall_forall in Hall. apply Forall_forall.
    intros r [_ Hin]%list_elem_of_filter. by apply Hall.
Qed.
End blocked.

(** ** Segmentation *)

Lemma segment_cons x l : ∃ xs blocks, segment (x :: l) = (x, xs) :: blocks.
Proof.
  simpl. destruct (segment l) as [|[y ys] blocks]; [by eauto|].
  case_decide; eauto.
Qed.

Lemma concat_segment l : concat ((λ b, b.1 :: b.2) <$> segment l) = l.
Proof.
  induction l as [|x l IH]; [done|]. simpl.
  destruct (segment l) as [|[y ys] blocks]; simpl in *; [by subst|].
  case_decide; simpl; by rewrite IH.
Qed.

Lemma segment_same_keyword l :
  Forall (λ b, Forall (λ row, Keyword row = Keyword b.1) b.2) (segment l).
Proof.
  induction l as [|x l IH]; simpl; [constructor|].
  destruct (segment l) as [|[y ys] blocks]; [by repeat constructor|].
  apply Forall_cons in IH as [Hys IH]. simpl in Hys.
  case_decide as Hxy; repeat constructor; simpl; try done.
  rewrite Hxy. eapply Forall_impl; [apply Hys|]. by intros ? ->.
Qed.

Lemma segment_alternating l : alternating ((λ b, Keyword b.1) <$> segment l).
Proof.
  induction l as [|x l IH]; simpl; [done|].
  destruct (segment l) as [|[y ys] blocks]; [done|].
  case_decide; [|done]. destruct blocks as [|[z zs] blocks]; [done|].
  simpl in *. destruct IH as [Hyz IH]. split; [congruence|done].
Qed.

Lemma members_number_from n blocks :
  members <$> number_from n blocks = (λ b, b.1 :: b.2) <$> blocks.
Proof.
  revert n. induction blocks as [|[x xs] blocks IH]; intros n; [done|].
  simpl. by rewrite IH.
Qed.

Lemma direction_number_from n blocks :
  direction <$> number_from n blocks = (λ b, Keyword b.1) <$> blocks.
Proof.
  revert n. induction blocks as [|[x xs] blocks IH]; intros n; [done|].
  simpl. by rewrite IH.
Qed.

Lemma run_id_number_from n blocks :
  run_id <$> number_from n blocks = seq n (length blocks).
Proof.
  revert n. induction blocks as [|[x xs] blocks IH]; intros n; [done|].
  simpl. by rewrite IH.
Qed.

Lemma number_from_same_keyword n blocks :
  Forall (λ b, Forall (λ row, Keyword row = Keyword b.1) b.2) blocks →
  Forall (λ r, Forall (λ row, Keyword row = direction r) (members r))
    (number_from n blocks).
Proof.
  intros H. revert n. induction H as [|[x xs] blocks Hx _ IH]; intros n; simpl.
  - constructor.
  - constructor; [|apply IH]. by constructor.
Qed.

(** The runs are a partition of the frame: put end to end, in order, they
    give back every row once. *)
Lemma concat_members_runs l : concat (members <$> runs l) = l.
Proof. unfold runs. by rewrite members_number_from, concat_segment. Qed.

Lemma runs_same_keyword l :
  Forall (λ r, Forall (λ row, Keyword row = direction r) (members r)) (runs l).
Proof. apply number_from_same_keyword, segment_same_keyword. Qed.

Lemma runs_alternating l : alternating (direction <$> runs l).
Proof. unfold runs. rewrite direction_number_from. apply segment_alternating. Qed.

Lemma run_ids_runs l : run_id <$> runs l = seq 1 (length (runs l)).
Proof.
  unfold runs. rewrite run_id_number_from. f_equal.
  clear. generalize 1. induction (segment l) as [|[??] ? IH]; intros n; simpl; auto.
Qed.

(** ** [assign_groups] numbers the runs *)

Lemma ne_missing (k : string) prev :
  match prev with
  | Some b => bool_decide (k ≠ b)
  | None => true
  end = bool_decide (Some k ≠ prev).
Proof.
  destruct prev as [b|]; [|done]. apply bool_decide_ext. naive_solver.
Qed.

Lemma cumsum_shift prev acc (kw : list string) :
  cumsum_from acc (series_ne kw (take (length kw) (prev :: (Some <$> kw))))
  = gids_from prev acc kw.
Proof.
  revert prev acc. induction kw as [|k kw IH]; intros prev acc; [done|].
  cbn [length take fmap list_fmap series_ne zip_with cumsum_from gids_from].
  rewrite ne_missing. f_equal. apply IH.
Qed.

Lemma gids_from_segment x l prev acc :
  gids_from prev acc (Keyword <$> x :: l)
  = concat ((λ r, replicate (length (members r)) (run_id r))
              <$> number_from
                    (acc + (if bool_decide (Some (Keyword x) ≠ prev) then 1 else 0))
                    (segment (x :: l))).
Proof.
  revert x prev acc. induction l as [|y l IH]; intros x prev acc; [done|].
  rewrite fmap_cons. cbn [gids_from]. rewrite IH. clear IH.
  destruct (segment_cons y l) as (ys & blocks & Hseg).
  change (segment (x :: y :: l)) with
    (match segment (y :: l) with
     | (y, ys) :: blocks =>
         if decide (Keyword x = Keyword y) then (x, y :: ys) :: blocks
         else (x, []) :: (y, ys) :: blocks
     | [] => [(x, [])]
     end).
  rewrite Hseg. set (n := acc + _).
  case_decide as Hxy.
  - rewrite bool_decide_false by (rewrite Hxy; naive_solver).
    rewrite Nat.add_0_r. done.
  - rewrite bool_decide_true by congruence.
    rewrite Nat.add_1_r. done.
Qed.

Lemma zip_group_columns (f : string → nat → string) (l : list Marked) gids :
  zip_with (λ row gg, mkGrouped row gg.1 gg.2) l
    (zip gids (zip_with f (col l Keyword) gids))
  = zip_with (λ row g, mkGrouped row g (f (Keyword row) g)) l gids.
Proof.
  revert gids. induction l as [|row l IH]; intros [|g gids]; try done.
  unfold col in *. rewrite fmap_cons. simpl. f_equal. apply IH.
Qed.

Lemma zip_with_blocks {R A B C} (F : A → B → C) (rows_of : R → list A)
    (v : R → B) (rs : list R) :
  zip_with F (concat (rows_of <$> rs))
    (concat ((λ r, replicate (length (rows_of r)) (v r)) <$> rs))
  = concat ((λ r, (λ row, F row (v r)) <$> rows_of r) <$> rs).
Proof.
  induction rs as [|r rs IH]; [done|].
  rewrite !fmap_cons. cbn [concat].
  rewrite zip_with_app by (by rewrite length_replicate).
  by rewrite zip_with_replicate_r_eq, IH.
Qed.

Lemma length_blocks {R A B} (rows_of : R → list A) (v : R → B) (rs : list R) :
  length (concat ((λ r, replicate (length (rows_of r)) (v r)) <$> rs))
  = length (concat (rows_of <$> rs)).
Proof.
  induction rs as [|r rs IH]; [done|].
  rewrite !fmap_cons. cbn [concat]. by rewrite !length_app, length_replicate, IH.
Qed.

Lemma set_column_blocks {R A B C} (mk : A → B → C) (rows_of : R → list A)
    (v : R → B) (rs : list R) :
  set_column mk (concat (rows_of <$> rs))
    (concat ((λ r, replicate (length (rows_of r)) (v r)) <$> rs))
  = Ok (concat ((λ r, (λ row, mk row (v r)) <$> rows_of r) <$> rs)).
Proof.
  unfold set_column. rewrite decide_True by apply length_blocks.
  by rewrite zip_with_blocks.
Qed.

Lemma group_id_column (l : list Marked) :
  cumsum (series_ne (col l Keyword) (shift (col l Keyword)))
  = concat ((λ r, replicate (length (members r)) (run_id r)) <$> runs l).
Proof.
  unfold cumsum, shift. rewrite cumsum_shift.
  destruct l as [|x l]; [done|]. unfold col. by rewrite gids_from_segment.
Qed.

Theorem assign_groups_runs (l : list Marked) :
  with_groups l = concat (grouped_rows <$> runs l).
Proof.
  unfold with_groups. rewrite zip_group_columns, group_id_column.
  rewrite <-(concat_members_runs l) at 1.
  rewrite (zip_with_blocks _ members run_id).
  f_equal. apply Forall_fmap_ext_1.
  eapply Forall_impl; [apply runs_same_keyword|]. intros r Hr.
  unfold grouped_rows, group_key. apply Forall_fmap_ext_1.
  eapply Forall_impl; [apply Hr|]. by intros row ->.
Qed.

(** ** [calculate_percentage_differences] on numbered runs *)

Lemma NoDup_run_ids l : NoDup (run_id <$> runs l).
Proof. rewrite run_ids_runs. apply NoDup_seq. Qed.

Lemma blocked_grouped l : blocked GroupID run_id grouped_rows (runs l).
Proof.
  split; [apply NoDup_run_ids|]. apply Forall_forall. intros r _. split.
  - done.
  - unfold grouped_rows. apply Forall_fmap, Forall_forall. by intros.
Qed.

Lemma percentage_diff_of_run r : percentage_diff_of (grouped_rows r) = range_pct r.
Proof.
  unfold percentage_diff_of, range_pct, run_low, run_high, grouped_rows, col.
  by rewrite <-!list_fmap_compose.
Qed.

Theorem calculate_percentage_differences_runs (l : list Marked) :
  calculate_percentage_differences (with_groups l)
  = Ok (concat (scored_rows <$> runs l)).
Proof.
  unfold calculate_percentage_differences. rewrite assign_groups_runs.
  match goal with |- bind ?m _ = _ =>
    assert (m = Ok ([] ++ concat ((λ r, replicate (length (grouped_rows r))
                                     (range_pct r)) <$> runs l))) as ->
  end.
  { apply (for_each_groups GroupID run_id grouped_rows (runs l)
             (λ _ group_data percentage_diffs,
                Ok (percentage_diffs ++
                      replicate (length group_data) (percentage_diff_of group_data)))).
    - apply blocked_grouped.
    - intros r s _. by rewrite percentage_diff_of_run. }
  apply (set_column_blocks mkScored grouped_rows range_pct).
Qed.

(** ** Group names *)

Lemma str_inj n m : str n = str m → n = m.
Proof.
  unfold str. intros Heq. apply Unsigned.to_uint_inj.
  pose proof (NilEmpty.usu (Nat.to_uint n)) as Hn.
  pose proof (NilEmpty.usu (Nat.to_uint m)) as Hm.
  rewrite Heq in Hn. congruence.
Qed.

Lemma green_not_in_digits d : str_in "green" (NilEmpty.string_of_uint d) = false.
Proof. induction d; simpl; auto. Qed.

Lemma green_in_green_key s : str_in "green" ("green" +:+ "_" +:+ s) = true.
Proof. done. Qed.

Lemma green_not_in_red_key n : str_in "green" ("red" +:+ "_" +:+ str n) = false.
Proof. simpl. apply green_not_in_digits. Qed.

Lemma elem_of_concat {A} (x : A) (ls : list (list A)) :
  x ∈ concat ls ↔ ∃ l, l ∈ ls ∧ x ∈ l.
Proof.
  induction ls as [|l ls IH]; simpl.
  - split; [by intros ?%elem_of_nil|]. by intros (? & ?%elem_of_nil & _).
  - rewrite elem_of_app, IH. setoid_rewrite elem_of_cons. naive_solver.
Qed.

Lemma fmap_concat {A B} (f : A → B) (ls : list (list A)) :
  f <$> concat ls = concat ((λ l : list A, f <$> l) <$> ls).
Proof.
  induction ls as [|l ls IH]; [done|].
  rewrite fmap_cons. cbn [concat]. by rewrite fmap_app, IH.
Qed.

Lemma NoDup_fmap_inj_on {A B} (f : A → B) (l : list A) x y :
  NoDup (f <$> l) → x ∈ l → y ∈ l → f x = f y → x = y.
Proof.
  induction l as [|a l IH]; [by intros _ ?%elem_of_nil|].
  rewrite fmap_cons. intros [Ha Hnd]%NoDup_cons.
  intros [->|Hx]%elem_of_cons [->|Hy]%elem_of_cons Hxy; auto.
  - destruct Ha. rewrite Hxy. by apply list_elem_of_fmap_2.
  - destruct Ha. rewrite <-Hxy. by apply list_elem_of_fmap_2.
Qed.

Lemma NoDup_fmap_filter {A B} (f : A → B) (P : A → Prop) `{∀ x, Decision (P x)}
    (l : list A) :
  NoDup (f <$> l) → NoDup (f <$> filter P l).
Proof.
  induction l as [|a l IH]; [done|].
  rewrite fmap_cons. intros [Ha Hnd]%NoDup_cons.
  rewrite filter_cons. case_decide; [|by apply IH].
  rewrite fmap_cons. apply NoDup_cons. split; [|by apply IH].
  intros (a' & Heq & [_ Hin]%list_elem_of_filter)%list_elem_of_fmap.
  apply Ha. rewrite Heq. by apply list_elem_of_fmap_2.
Qed.

Lemma run_members_in_frame l r row : r ∈ runs l → row ∈ members r → row ∈ l.
Proof.
  intros Hr Hrow. rewrite <-(concat_members_runs l). apply elem_of_concat.
  exists (members r). split; [by apply list_elem_of_fmap_2|done].
Qed.

Lemma run_direction_coloured l r :
  two_coloured l → r ∈ runs l → direction r = "green" ∨ direction r = "red".
Proof.
  intros Hl Hr. unfold two_coloured in Hl. rewrite Forall_forall in Hl.
  apply Hl. eapply run_members_in_frame; [done|]. by left.
Qed.

Lemma group_key_inj r r' :
  direction r = "green" ∨ direction r = "red" →
  direction r' = "green" ∨ direction r' = "red" →
  group_key r = group_key r' → run_id r = run_id r'.
Proof.
  unfold group_key. intros [->| ->] [->| ->] Heq; simplify_eq/=;
    by apply str_inj.
Qed.

Lemma NoDup_group_keys l : two_coloured l → NoDup (group_key <$> runs l).
Proof.
  intros Hl. apply NoDup_fmap_2_strong.
  - intros r r' Hr Hr' Heq.
    apply (NoDup_fmap_inj_on run_id (runs l)); auto using NoDup_run_ids.
    apply group_key_inj; eauto using run_direction_coloured.
  - eapply NoDup_fmap_1, NoDup_run_ids.
Qed.

Lemma green_in_group_key r :
  direction r = "green" ∨ direction r = "red" →
  str_in "green" (group_key r) = bool_decide (direction r = "green").
Proof.
  unfold group_key. intros [->| ->].
  - by rewrite green_in_green_key.
  - by rewrite green_not_in_red_key.
Qed.

Lemma group_key_nonempty r : group_key r ≠ "".
Proof. unfold group_key. by destruct (direction r). Qed.

(** ** [identify_valid_groups] on numbered runs *)

Lemma blocked_scored l :
  two_coloured l → blocked (λ row : Scored, Group row) group_key scored_rows (runs l).
Proof.
  intros Hl. split; [by apply NoDup_group_keys|].
  apply Forall_forall. intros r _. split; [done|].
  unfold scored_rows, grouped_rows. rewrite <-list_fmap_compose.
  apply Forall_fmap, Forall_forall. by intros.
Qed.

Lemma valid_groups_loop threshold l :
  two_coloured l →
  for_each (unique (col (concat (scored_rows <$> runs l)) (λ row : Scored, Group row)))
    (λ group_name valid_groups,
       if str_in "green" group_name then
         let group_data :=
           filter (λ row : Scored, Group row = group_name)
             (concat (scored_rows <$> runs l)) in
         let* percentage_diff :=
           iloc0 (col group_data (λ row, PercentageDifference row)) in
         if fge percentage_diff threshold
         then Ok (valid_groups ++ [group_name])
         else Ok valid_groups
       else Ok valid_groups) []
  = Ok (group_key <$> filter (qualifies threshold) (runs l)).
Proof.
  intros Hl.
  assert (group_key <$> filter (qualifies threshold) (runs l)
          = [] ++ concat ((λ r, if decide (qualifies threshold r)
                                then [group_key r] else []) <$> runs l)) as ->.
  { simpl. induction (runs l) as [|r rs IH]; [done|].
    rewrite filter_cons, fmap_cons. cbn [concat].
    case_decide; by rewrite ?fmap_cons, IH. }
  apply (for_each_groups (λ row : Scored, Group row) group_key scored_rows (runs l)
           (λ group_name group_data valid_groups,
              if str_in "green" group_name then
                let* percentage_diff :=
                  iloc0 (col group_data (λ row : Scored, PercentageDifference row)) in
                if fge percentage_diff threshold
                then Ok (valid_groups ++ [group_name])
                else Ok valid_groups
              else Ok valid_groups)).
  - by apply blocked_scored.
  - intros r s Hr.
    rewrite green_in_group_key by eauto using run_direction_coloured.
    cbn [iloc0 col scored_rows grouped_rows members fmap list_fmap
           PercentageDifference bind].
    destruct (decide (qualifies threshold r)) as [[Hdir Hge]|Hn].
    + by rewrite bool_decide_true, Hge.
    + rewrite app_nil_r. case_bool_decide as Hdir; [|done].
      destruct (fge (range_pct r) threshold) eqn:Hge; [|done].
      by destruct Hn.
Qed.

Lemma valid_group_iff threshold l r :
  two_coloured l → r ∈ runs l →
  group_key r ∈ group_key <$> filter (qualifies threshold) (runs l)
  ↔ qualifies threshold r.
Proof.
  intros Hl Hr. split.
  - intros (r' & Heq & [Hq Hr']%list_elem_of_filter)%list_elem_of_fmap.
    by rewrite (NoDup_fmap_inj_on group_key (runs l) r r')
      by auto using NoDup_group_keys.
  - intros Hq. apply list_elem_of_fmap_2. by apply list_elem_of_filter.
Qed.

Theorem identify_valid_groups_runs threshold (l : list Marked) :
  two_coloured l →
  identify_valid_groups threshold (concat (scored_rows <$> runs l))
  = Ok (concat (flagged_rows threshold <$> runs l)).
Proof.
  intros Hl. unfold identify_valid_groups.
  rewrite valid_groups_loop by done. cbn [bind]. f_equal.
  rewrite fmap_concat, <-list_fmap_compose. f_equal.
  apply Forall_fmap_ext_1, Forall_forall. intros r Hr.
  unfold compose, flagged_rows. apply Forall_fmap_ext_1.
  unfold scored_rows, grouped_rows. rewrite <-list_fmap_compose.
  apply Forall_fmap, Forall_forall. intros row _. cbn.
  f_equal. apply (valid_group_iff threshold) in Hr; [|done].
  case_bool_decide; case_decide; tauto.
Qed.

(** ** [remove_invalid_rows] and [transform_valid_groups] on numbered runs *)

Lemma filter_concat_blocks {R A} (P : R → Prop) `{∀ r, Decision (P r)}
    (Q : A → Prop) `{∀ a, Decision (Q a)} (rows_of : R → list A) (rs : list R) :
  Forall (λ r, if decide (P r) then Forall Q (rows_of r)
               else Forall (λ a, ¬ Q a) (rows_of r)) rs →
  filter Q (concat (rows_of <$> rs)) = concat (rows_of <$> filter P rs).
Proof.
  induction 1 as [|r rs Hr _ IH]; [done|].
  rewrite fmap_cons, filter_cons. cbn [concat]. rewrite filter_app, IH.
  case_decide.
  - rewrite fmap_cons. cbn [concat]. by rewrite filter_all.
  - by rewrite filter_none.
Qed.

Theorem remove_invalid_rows_runs threshold (l : list Marked) :
  remove_invalid_rows (concat (flagged_rows threshold <$> runs l))
  = concat (flagged_rows threshold <$> filter (qualifies threshold) (runs l)).
Proof.
  unfold remove_invalid_rows. apply filter_concat_blocks, Forall_forall.
  intros r _. unfold flagged_rows.
  case_decide; apply Forall_fmap, Forall_forall; intros row _; cbn.
  - apply group_key_nonempty.
  - by intros [].
Qed.

Lemma blocked_flagged threshold l :
  two_coloured l →
  blocked ValidGroup group_key (flagged_rows threshold)
    (filter (qualifies threshold) (runs l)).
Proof.
  intros Hl. split; [by apply NoDup_fmap_filter, NoDup_group_keys|].
  apply Forall_forall. intros r [Hq _]%list_elem_of_filter. split; [done|].
  unfold flagged_rows. rewrite decide_True by done.
  apply Forall_fmap, Forall_forall. by intros.
Qed.

Lemma flagged_rows_columns threshold r :
  col (flagged_rows threshold r) (λ row, Symbol row) = col (members r) (λ row, Symbol row)
  ∧ col (flagged_rows threshold r) (λ row, Low row) = col (members r) (λ row, Low row)
  ∧ col (flagged_rows threshold r) (λ row, High row) = col (members r) (λ row, High row)
  ∧ col (flagged_rows threshold r) (λ row, Date row) = col (members r) (λ row, Date row)
  ∧ col (flagged_rows threshold r) (λ row, PercentageDifference row)
    = replicate (length (members r)) (range_pct r).
Proof.
  unfold col, flagged_rows, scored_rows, grouped_rows.
  rewrite <-!list_fmap_compose. repeat split.
  unfold compose, members. cbn. f_equal.
  induction (rest r) as [|row m IH]; [done|]. rewrite fmap_cons. cbn. by rewrite IH.
Qed.

Theorem transform_valid_groups_runs threshold (l : list Marked) :
  two_coloured l →
  transform_valid_groups
    (concat (flagged_rows threshold <$> filter (qualifies threshold) (runs l)))
  = Ok (summary_of <$> filter (qualifies threshold) (runs l)).
Proof.
  intros Hl. unfold transform_valid_groups.
  set (rs := filter (qualifies threshold) (runs l)).
  assert (summary_of <$> rs = [] ++ concat ((λ r, [summary_of r]) <$> rs)) as ->.
  { simpl. induction rs as [|r rs' IH]; [done|].
    rewrite !fmap_cons. cbn [concat app]. by rewrite IH. }
  apply (for_each_groups ValidGroup group_key (flagged_rows threshold) rs
           (λ group_name group_data transformed_data,
              if bool_decide (group_name ≠ "") then
                let* symbol := iloc0 (col group_data (λ row : Flagged, Symbol row)) in
                let lowest_low := series_min (col group_data (λ row : Flagged, Low row)) in
                let highest_high := series_max (col group_data (λ row : Flagged, High row)) in
                let earliest_date := index_min (col group_data (λ row : Flagged, Date row)) in
                let* percentage_diff :=
                  iloc0 (col group_data (λ row : Flagged, PercentageDifference row)) in
                Ok (transformed_data ++
                      [mkSummary symbol lowest_low highest_high earliest_date
                         percentage_diff group_name])
              else Ok transformed_data)).
  - by apply blocked_flagged.
  - intros r s Hr. rewrite bool_decide_true by apply group_key_nonempty.
    destruct (flagged_rows_columns threshold r) as (-> & -> & -> & -> & ->).
    done.
Qed.

(** ** The whole pipeline on numbered runs *)

Lemma mark_keywords_two_coloured bars : two_coloured (with_keyword bars).
Proof.
  unfold two_coloured, with_keyword. apply Forall_fmap, Forall_forall.
  intros row _. simpl. destruct (flt _ _); auto.
Qed.

Lemma mark_keywords_rows pd (bars : list Bar) :
  bars ≠ [] → mark_keywords pd bars = Ok (Strings (with_keyword bars)).
Proof. by destruct bars. Qed.

Lemma assign_groups_rows (l : list Marked) :
  assign_groups (Strings l) = Ok (with_groups l).
Proof. done. Qed.

Lemma process_empty pd threshold :
  process pd threshold [] = Raise (empty_frame_error pd).
Proof. by destruct pd. Qed.

(** The two cases of a frame: without rows, and with rows. *)
Lemma frame_match {A} (P Q : Prop) (bars : list A) :
  (bars = [] → P) → (bars ≠ [] → Q) →
  match bars with [] => P | _ :: _ => Q end.
Proof. destruct bars; auto. Qed.

Ltac frame_cases bars :=
  apply frame_match; [intros ->; try apply process_empty|intros ?].

Theorem process_runs pd threshold (bars : list Bar) :
  bars ≠ [] →
  process pd threshold bars
  = Ok (summary_of <$> filter (qualifies threshold) (runs (with_keyword bars))).
Proof.
  intros Hbars. pose proof (mark_keywords_two_coloured bars) as Hl. unfold process.
  rewrite mark_keywords_rows by done. cbn [bind]. rewrite assign_groups_rows. cbn [bind].
  rewrite calculate_percentage_differences_runs. cbn [bind].
  rewrite identify_valid_groups_runs by done. cbn [bind].
  rewrite remove_invalid_rows_runs. by apply transform_valid_groups_runs.
Qed.

(** ** Minimum and maximum of a column *)

Ltac compare_cases :=
  change (PosDef.Pos.compare_cont Eq) with Pos.compare;
  repeat match goal with
  | |- context [(?a ?= ?b)%Z] => destruct (Z.compare_spec a b)
  | |- context [(?a ?= ?b)%positive] => destruct (Pos.compare_spec a b)
  end; cbn; try done; try lia.

Lemma fge_trans (x y z : float64) :
  fge x y = true → fge y z = true → fge x z = true.
Proof.
  unfold fge, SFleb.
  destruct x as [[]|[]| |[] m1 e1], y as [[]|[]| |[] m2 e2], z as [[]|[]| |[] m3 e3];
    cbn -[Z.compare]; try done; compare_cases.
Qed.

Lemma flt_fge (x y : float64) : flt x y = true → fge y x = true.
Proof. unfold flt, fge, SFltb, SFleb. by destruct (SFcompare x y) as [[]|]. Qed.

Lemma flt_irrefl (x : float64) : flt x x = false.
Proof.
  unfold flt, SFltb.
  destruct x as [[]|[]| |[] m e]; cbn -[Z.compare]; try done; compare_cases.
Qed.

Lemma flt_not_fge (x y : float64) : flt x y = true → fge x y = false.
Proof.
  unfold flt, fge, SFltb, SFleb.
  destruct x as [[]|[]| |[] m1 e1], y as [[]|[]| |[] m2 e2];
    cbn -[Z.compare]; try done; compare_cases.
Qed.

Lemma feq_not_flt (x y : float64) : feq x y = true → flt x y = false.
Proof. unfold feq, flt, SFeqb, SFltb. by destruct (SFcompare x y) as [[]|]. Qed.

Lemma fge_refl (x : finite64) : fge x x = true.
Proof.
  unfold fge, SFleb.
  destruct x as [[]|[] m e]; cbn -[Z.compare]; try done; compare_cases.
Qed.

(** Two finite values are always comparable. *)
Lemma flt_false_fge (x y : finite64) : flt y x = false → fge y x = true.
Proof.
  unfold flt, fge, SFltb, SFleb.
  destruct x as [[]|[] m1 e1], y as [[]|[] m2 e2];
    cbn -[Z.compare]; try done; compare_cases.
Qed.

Lemma fmin_list_spec x l : is_min (fmin_list x l) (x :: l).
Proof.
  unfold fmin_list. revert x. induction l as [|y l IH]; intros x; simpl.
  - split; [by left|]. repeat constructor. apply fge_refl.
  - destruct (IH (if flt y x then y else x)) as [Hin Hle].
    apply Forall_cons in Hle as [Hm Hle].
    destruct (flt y x) eqn:Hyx.
    + split.
      * apply elem_of_cons in Hin as [->|Hin]; rewrite !elem_of_cons; auto.
      * repeat constructor; [|done..].
        eapply fge_trans; [|apply Hm]. by apply flt_fge.
    + split.
      * apply elem_of_cons in Hin as [->|Hin]; rewrite !elem_of_cons; auto.
      * repeat constructor; [done| |done].
        eapply fge_trans; [|apply Hm]. by apply flt_false_fge.
Qed.

Lemma fmax_list_spec x l : is_max (fmax_list x l) (x :: l).
Proof.
  unfold fmax_list. revert x. induction l as [|y l IH]; intros x; simpl.
  - split; [by left|]. repeat constructor. apply fge_refl.
  - destruct (IH (if flt x y then y else x)) as [Hin Hle].
    apply Forall_cons in Hle as [Hm Hle].
    destruct (flt x y) eqn:Hxy.
    + split.
      * apply elem_of_cons in Hin as [->|Hin]; rewrite !elem_of_cons; auto.
      * repeat constructor; [|done..].
        eapply fge_trans; [apply Hm|]. by apply flt_fge.
    + split.
      * apply elem_of_cons in Hin as [->|Hin]; rewrite !elem_of_cons; auto.
      * repeat constructor; [done| |done].
        eapply fge_trans; [apply Hm|]. by apply flt_false_fge.
Qed.

Lemma series_min_spec xs :
  xs ≠ [] → ∃ m, series_min xs = Fin m ∧ is_min m xs.
Proof. destruct xs as [|x l]; [done|]. eauto using fmin_list_spec. Qed.

Lemma series_max_spec xs :
  xs ≠ [] → ∃ m, series_max xs = Fin m ∧ is_max m xs.
Proof. destruct xs as [|x l]; [done|]. eauto using fmax_list_spec. Qed.

Lemma index_min_spec idx :
  idx ≠ [] → ∃ d, index_min idx = Some d ∧ is_earliest d idx.
Proof.
  destruct idx as [|x l]; [done|]. intros _. eexists. split; [done|].
  revert x. induction l as [|y l IH]; intros x; simpl.
  - split; [by left|]. by repeat constructor.
  - destruct (IH (Z.min x y)) as [Hin Hle].
    apply Forall_cons in Hle as [Hm Hle]. split.
    + apply elem_of_cons in Hin as [Hin|Hin]; [|rewrite !elem_of_cons; auto].
      rewrite Hin.
      destruct (Z.min_spec x y) as [[_ ->]|[_ ->]]; rewrite !elem_of_cons; auto.
    + repeat constructor; [lia..|done].
Qed.

(** * The claims *)

(** ** The Direction Classifier *)

(** C5.  On a frame with rows [mark_keywords] returns, keeps every bar and
    labels it "green" exactly when its Open is strictly below its Close,
    "red" otherwise; a bar whose Open equals its Close is "red".  (On the
    frame without rows there is no bar to label: the call raises or leaves
    a column that is not one of strings, as the pandas installed has it.) *)
Theorem mark_keywords_direction pd (stock_data : list Bar) :
  match stock_data with
  | [] =>
      mark_keywords pd stock_data
      = match pd with
        | rejects_empty_frame => Raise ValueError
        | assigns_empty_frame => Ok NotStrings
        end
  | _ :: _ =>
      ∃ l, mark_keywords pd stock_data = Ok (Strings l) ∧
        Forall2 (λ b row,
            bar row = b ∧
            (Keyword row = "green" ↔ flt (Open b) (Close b) = true) ∧
            (Keyword row = "red" ↔ flt (Open b) (Close b) = false) ∧
            (feq (Open b) (Close b) = true → Keyword row = "red"))
          stock_data l
  end.
Proof.
  destruct stock_data as [|b0 stock_data]; [done|].
  eexists. split; [done|].
  apply Forall2_fmap_r, Forall_Forall2_diag, Forall_forall.
  intros b _. cbn. destruct (flt (Open b) (Close b)) eqn:Hlt.
  - repeat split; try done. intros Heq%feq_not_flt. congruence.
  - repeat split; try done.
Qed.

(** Scenario C of the specification: O = 10, C = 10 is a red candle. *)
Example mark_keywords_doji pd :
  mark_keywords pd [mkBar (mkQuote 1 10 12 9 10) "X"]
  = Ok (Strings [mkMarked (mkBar (mkQuote 1 10 12 9 10) "X") "red"]).
Proof. reflexivity. Qed.

(** ** The Run Segmenter *)

Lemma assign_groups_zip (l : list Marked) :
  with_groups l
  = zip_with (λ row g, mkGrouped row g (Keyword row +:+ "_" +:+ str g)) l
      (gids_from None 0 (col l Keyword)).
Proof.
  unfold with_groups. rewrite zip_group_columns. f_equal.
  unfold cumsum, shift. apply cumsum_shift.
Qed.

Lemma gids_from_step prev acc kw i g1 g2 k1 k2 :
  gids_from prev acc kw !! i = Some g1 → gids_from prev acc kw !! S i = Some g2 →
  kw !! i = Some k1 → kw !! S i = Some k2 →
  g2 = g1 + (if bool_decide (k2 ≠ k1) then 1 else 0).
Proof.
  revert prev acc i. induction kw as [|k kw IH]; intros prev acc i; [done|].
  destruct i as [|i]; cbn [gids_from lookup list_lookup].
  - intros [= <-] Hg2 [= <-] Hk2. destruct kw as [|k' kw]; simplify_eq/=.
    f_equal. apply (f_equal (λ b : bool, if b then 1 else 0)).
    apply bool_decide_ext. naive_solver.
  - apply IH.
Qed.

Lemma assign_groups_keeps_rows (l : list Marked) : marked <$> with_groups l = l.
Proof.
  rewrite assign_groups_runs, fmap_concat, <-list_fmap_compose.
  rewrite <-(concat_members_runs l) at 2. f_equal.
  apply Forall_fmap_ext_1, Forall_forall. intros r _.
  unfold compose, grouped_rows. rewrite <-list_fmap_compose.
  by rewrite list_fmap_id.
Qed.

(** C3.  [assign_groups] returns on every frame labelled with strings and
    partitions it into runs: every row is kept,
    in order, and gets one [GroupID]; the first row gets 1; a row starts a
    new [GroupID] (the previous one plus 1) exactly when its Keyword differs
    from the Keyword of the row just above, and otherwise carries the same
    one; the groups selected by the ids [1, 2, ..., n], put end to end, are
    the frame (no gap, no overlap). *)
Theorem assign_groups_partition (l : list Marked) :
  ∃ df : list Grouped, assign_groups (Strings l) = Ok df ∧
  marked <$> df = l ∧
  (∀ row, head df = Some row → GroupID row = 1) ∧
  (∀ (i : nat) (above row : Grouped),
     df !! i = Some above → df !! S i = Some row →
     (Keyword row ≠ Keyword above → GroupID row = S (GroupID above)) ∧
     (Keyword row = Keyword above → GroupID row = GroupID above)) ∧
  unique (col df GroupID) = seq 1 (length (runs l)) ∧
  concat ((λ g, filter (λ row, GroupID row = g) df)
            <$> unique (col df GroupID))
  = df.
Proof.
  exists (with_groups l). split; [done|].
  split_and!.
  - apply assign_groups_keeps_rows.
  - rewrite assign_groups_zip. destruct l as [|x l]; [done|].
    unfold col. rewrite fmap_cons. cbn. by intros row [= <-].
  - intros i above row. rewrite assign_groups_zip.
    intros (x & g1 & -> & Hx & Hg1)%lookup_zip_with_Some.
    intros (y & g2 & -> & Hy & Hg2)%lookup_zip_with_Some. cbn.
    rewrite (gids_from_step None 0 (col l Keyword) i g1 g2 (Keyword x) (Keyword y));
      try done; [|by unfold col; rewrite list_lookup_fmap, ?Hx, ?Hy..].
    case_bool_decide; split; intros; try done; lia.
  - rewrite assign_groups_runs. unfold col.
    rewrite (unique_blocked GroupID run_id grouped_rows) by apply blocked_grouped.
    apply run_ids_runs.
  - unfold col. rewrite !assign_groups_runs.
    rewrite (unique_blocked GroupID run_id grouped_rows) by apply blocked_grouped.
    rewrite <-list_fmap_compose. f_equal.
    apply Forall_fmap_ext_1, Forall_forall. intros r Hr. unfold compose.
    apply (filter_blocked GroupID run_id grouped_rows); [apply blocked_grouped|done].
Qed.

(** Scenario B of the specification: five candles of alternating colour
    are five runs of one candle. *)
Example assign_groups_alternating pd :
  (let* labelled :=
     mark_keywords pd
       [mkBar (mkQuote 1 10 12 9 11) "X"; mkBar (mkQuote 2 11 12 9 10) "X";
        mkBar (mkQuote 3 10 12 9 11) "X"; mkBar (mkQuote 4 11 12 9 10) "X";
        mkBar (mkQuote 5 10 12 9 11) "X"] in
   let* df := assign_groups labelled in
   Ok ((λ row : Grouped, (GroupID row, Group row)) <$> df))
  = Ok [(1, "green_1"); (2, "red_2"); (3, "green_3"); (4, "red_4"); (5, "green_5")].
Proof. reflexivity. Qed.

(** ** The Range Evaluator *)

Lemma run_low_spec r : ∃ lo, run_low r = Fin lo ∧ is_min lo (col (members r) (λ row, Low row)).
Proof. by apply series_min_spec. Qed.

Lemma run_high_spec r : ∃ hi, run_high r = Fin hi ∧ is_max hi (col (members r) (λ row, High row)).
Proof. by apply series_max_spec. Qed.

(** Two finite values that are each at least the other are the same
    value, or both zero. *)
Lemma fge_antisym (x y : finite64) :
  fge x y = true → fge y x = true → x = y ∨ ∃ sx sy, x = Zero sx ∧ y = Zero sy.
Proof.
  unfold fge, SFleb.
  destruct x as [sx|[] m1 e1], y as [sy|[] m2 e2];
    cbn -[Z.compare]; try done; try (by intros; right; eauto);
    compare_cases; intros; left; congruence.
Qed.

Lemma feq_zero (x : finite64) :
  feq x 0 = match x with Zero _ => true | Finite _ _ _ => false end.
Proof. by destruct x as [[]|[] m e]. Qed.

Lemma is_min_nonzero_unique m m' xs :
  is_min m xs → is_min m' xs → feq m 0 = false → m = m'.
Proof.
  intros [Hin Hle] [Hin' Hle'] Hnz. rewrite Forall_forall in Hle, Hle'.
  destruct (fge_antisym m m') as [?|(sx & sy & -> & _)]; auto.
  by rewrite feq_zero in Hnz.
Qed.

Lemma is_max_unique m m' xs :
  is_max m xs → is_max m' xs → m = m' ∨ ∃ s s', m = Zero s ∧ m' = Zero s'.
Proof.
  intros [Hin Hle] [Hin' Hle']. rewrite Forall_forall in Hle, Hle'.
  apply fge_antisym; auto.
Qed.

(** The difference to a non-zero value does not see the sign of a zero. *)
Lemma fsub_zero_sign s s' (lo : finite64) :
  feq lo 0 = false → fsub (Zero s) lo = fsub (Zero s') lo.
Proof. rewrite feq_zero. by destruct lo. Qed.

Lemma blocked_scored_ids l :
  blocked (λ row : Scored, GroupID row) run_id scored_rows (runs l).
Proof.
  split; [apply NoDup_run_ids|]. apply Forall_forall. intros r _. split; [done|].
  unfold scored_rows, grouped_rows. rewrite <-list_fmap_compose.
  apply Forall_fmap, Forall_forall. by intros.
Qed.

Lemma scored_rows_columns r :
  col (scored_rows r) (λ row, Low row) = col (members r) (λ row, Low row)
  ∧ col (scored_rows r) (λ row, High row) = col (members r) (λ row, High row)
  ∧ Forall (λ row : Scored,
             GroupID row = run_id r ∧ PercentageDifference row = range_pct r)
      (scored_rows r)
  ∧ grouped <$> scored_rows r = grouped_rows r.
Proof.
  unfold col, scored_rows, grouped_rows. rewrite <-!list_fmap_compose.
  split_and!; try done.
  apply Forall_fmap, Forall_forall. by intros.
Qed.

(** C4.  On a frame numbered by [assign_groups], the Range Evaluator gives
    every row of a run one and the same [PercentageDifference]; when the
    least Low [lo] of the run is not zero, that value is
    [(hi - lo) / lo * 100] computed in float64, [hi] being the greatest
    High of the run. *)
Theorem calculate_percentage_differences_range (l : list Marked) :
  ∃ df d, assign_groups (Strings l) = Ok df ∧
    calculate_percentage_differences df = Ok d ∧
    grouped <$> d = df ∧
    ∀ row : Scored, row ∈ d →
      let group_data := filter (λ x : Scored, GroupID x = GroupID row) d in
      Forall (λ x, PercentageDifference x = PercentageDifference row) group_data ∧
      ∀ lo hi,
        is_min lo (col group_data (λ x, Low x)) →
        is_max hi (col group_data (λ x, High x)) →
        feq lo 0 = false →
        PercentageDifference row = fmul (fdiv (fsub hi lo) lo) 100.
Proof.
  exists (with_groups l). eexists. split; [done|].
  split; [apply calculate_percentage_differences_runs|]. split.
  { rewrite assign_groups_runs, fmap_concat, <-list_fmap_compose. f_equal.
    apply Forall_fmap_ext_1, Forall_forall. intros r _.
    apply scored_rows_columns. }
  intros row (rows & (r & -> & Hr)%list_elem_of_fmap & Hrow)%elem_of_concat.
  destruct (scored_rows_columns r) as (Hlow & Hhigh & Hcols & _).
  rewrite Forall_forall in Hcols. destruct (Hcols row Hrow) as [-> ->]. cbn zeta.
  rewrite (filter_blocked _ run_id scored_rows) by auto using blocked_scored_ids.
  split; [apply Forall_forall; intros x Hx; by apply Hcols|].
  rewrite Hlow, Hhigh. intros lo hi Hlo Hhi Hnz.
  destruct (run_low_spec r) as (lo' & Hlo' & Hmin).
  destruct (run_high_spec r) as (hi' & Hhi' & Hmax).
  assert (lo = lo') as <- by eauto using is_min_nonzero_unique.
  unfold range_pct. rewrite Hlo', Hhi'.
  destruct (is_max_unique _ _ _ Hmax Hhi) as [->|(s & s' & -> & ->)]; [done|].
  by rewrite (fsub_zero_sign s s').
Qed.

(** Scenario A of the specification: two green candles, Low 9 and 10, High
    12 and 15, give (15 - 9) / 9 * 100 on both rows: in float64 that is
    4691249611844266 * 2^-46, the float below 200/3 that prints as
    66.66666666666666. *)
Example calculate_percentage_differences_scenario_A :
  (let* df :=
     assign_groups (Strings (with_keyword
       [mkBar (mkQuote 1 10 12 9 11) "X"; mkBar (mkQuote 2 11 15 10 14) "X"])) in
   let* d := calculate_percentage_differences df in
   Ok (col d PercentageDifference))
  = Ok [S754_finite false 4691249611844266 (-46);
        S754_finite false 4691249611844266 (-46)].
Proof. vm_compute. reflexivity. Qed.

(** ** The Run Summarizer *)

Lemma summary_of_fields r :
  (∃ lo, Lowest_Low (summary_of r) = Fin lo
         ∧ is_min lo (col (members r) (λ row, Low row)))
  ∧ (∃ hi, Highest_High (summary_of r) = Fin hi
           ∧ is_max hi (col (members r) (λ row, High row)))
  ∧ (∃ d, Earliest_Date (summary_of r) = Some d
          ∧ is_earliest d (col (members r) (λ row, Date row))).
Proof.
  split_and!.
  - apply run_low_spec.
  - apply run_high_spec.
  - by apply index_min_spec.
Qed.

(** C1.  For one symbol's bars (a frame with rows) the pipeline returns,
    in order, exactly one Summary Record per qualifying run (a maximal
    block of green candles whose range reaches the threshold).  The record
    carries the symbol of the run's bars, the least Low, the greatest High
    and the earliest date of the members of the run, and the percentage
    difference of the run, [(high - low) / low * 100] in float64.  On the
    frame without rows the pipeline raises. *)
Theorem process_one_summary_per_qualifying_run pd threshold (bars : list Bar) :
  match bars with
  | [] => process pd threshold bars = Raise (empty_frame_error pd)
  | _ :: _ =>
      ∃ out, process pd threshold bars = Ok out ∧
        Forall2 (λ r s,
            Summary_Symbol s = Symbol (first r)
            ∧ (∀ symbol, Forall (λ b, Symbol b = symbol) bars → Summary_Symbol s = symbol)
            ∧ (∃ lo hi,
                 Lowest_Low s = Fin lo
                 ∧ is_min lo (col (members r) (λ row, Low row))
                 ∧ Highest_High s = Fin hi
                 ∧ is_max hi (col (members r) (λ row, High row))
                 ∧ Percentage_Difference s = fmul (fdiv (fsub hi lo) lo) 100
                 ∧ fge (Percentage_Difference s) threshold = true)
            ∧ (∃ d, Earliest_Date s = Some d
                    ∧ is_earliest d (col (members r) (λ row, Date row)))
            ∧ Percentage_Difference s = range_pct r
            ∧ Summary_ValidGroup s = group_key r)
          (filter (qualifies threshold) (runs (with_keyword bars))) out
  end.
Proof.
  frame_cases bars.
  eexists. split; [by apply process_runs|].
  apply Forall2_fmap_r, Forall_Forall2_diag, Forall_forall.
  intros r [[_ Hge] Hr]%list_elem_of_filter.
  destruct (summary_of_fields r) as ((lo & Hlo & Hmin) & (hi & Hhi & Hmax) & Hd).
  split_and!; try done.
  - intros symbol Hall. rewrite Forall_forall in Hall. cbn.
    assert (first r ∈ with_keyword bars) as Hin.
    { eapply run_members_in_frame; [done|]. by left. }
    apply list_elem_of_fmap in Hin as (b & -> & Hb). by apply Hall.
  - exists lo, hi. split_and!; try done.
    change (range_pct r = fmul (fdiv (fsub hi lo) lo) 100).
    change (run_low r = lo) in Hlo. change (run_high r = hi) in Hhi.
    unfold range_pct. by rewrite Hlo, Hhi.
Qed.

(** Scenario A of the specification, at the threshold of the source. *)
Example process_scenario_A pd :
  process pd PERCENTAGE_THRESHOLD
    [mkBar (mkQuote 1 10 12 9 11) "X"; mkBar (mkQuote 2 11 15 10 14) "X"]
  = Ok [mkSummary "X" (Fin 9) (Fin 15) (Some 1%Z)
          (S754_finite false 4691249611844266 (-46)) "green_1"].
Proof. vm_compute. reflexivity. Qed.

(** The rounding decides: a green candle with Low 100 and High 129 has a
    range of 28.999999999999996 in float64, below a threshold of 29. *)
Example process_rounds_below_threshold pd :
  process pd 29 [mkBar (mkQuote 1 100 129 100 120) "X"] = Ok [].
Proof. vm_compute. reflexivity. Qed.

(** Low 375.35 and High 450.42, read as floats, give exactly 20.0. *)
Example process_rounds_onto_threshold pd :
  process pd 20
    [mkBar (mkQuote 1 (decimal 37535 100) (decimal 45042 100)
              (decimal 37535 100) (decimal 45042 100)) "X"]
  = Ok [mkSummary "X" (Fin (decimal 37535 100)) (Fin (decimal 45042 100)) (Some 1%Z)
          (Fin 20) "green_1"].
Proof. vm_compute. reflexivity. Qed.

(** A positive Low does not keep the range finite: with Low 1 and the
    largest float as High the product overflows, and the record carries
    +infinity. *)
Example process_overflow pd :
  process pd 20 [mkBar (mkQuote 1 1 (Finite false 9007199254740991 971) 1 2) "X"]
  = Ok [mkSummary "X" (Fin 1) (S754_finite false 9007199254740991 971) (Some 1%Z)
          PosInf "green_1"].
Proof. vm_compute. reflexivity. Qed.

(** ** The Breakout Filter *)

Lemma flagged_rows_marked threshold r :
  (λ row : Flagged, marked row) <$> flagged_rows threshold r = members r.
Proof.
  unfold flagged_rows, scored_rows, grouped_rows.
  rewrite <-!list_fmap_compose. apply list_fmap_id.
Qed.

(** C2.  On a frame with rows, a run is in the output exactly when it is
    green and its percentage difference, computed in float64, is at least
    the threshold.  The rows that
    survive [remove_invalid_rows] are the rows of the qualifying runs and
    nothing else, none of them carries the empty marker, and the summary
    holds a record for a run if and only if the run qualifies. *)
Theorem breakout_filter_exact pd threshold (bars : list Bar) :
  match bars with
  | [] => process pd threshold bars = Raise (empty_frame_error pd)
  | _ :: _ =>
  ∃ labelled groups scored flagged out,
    mark_keywords pd bars = Ok labelled ∧
    assign_groups labelled = Ok groups ∧
    calculate_percentage_differences groups = Ok scored ∧
    identify_valid_groups threshold scored = Ok flagged ∧
    transform_valid_groups (remove_invalid_rows flagged) = Ok out ∧
    process pd threshold bars = Ok out ∧
    (λ row : Flagged, marked row) <$> remove_invalid_rows flagged
    = concat (members <$> filter (qualifies threshold) (runs (with_keyword bars))) ∧
    Forall (λ row, ValidGroup row ≠ "") (remove_invalid_rows flagged) ∧
    Summary_ValidGroup <$> out
    = group_key <$> filter (qualifies threshold) (runs (with_keyword bars)) ∧
    ∀ r, r ∈ runs (with_keyword bars) →
      ((∃ row : Flagged, row ∈ remove_invalid_rows flagged ∧ GroupID row = run_id r)
       ↔ direction r = "green" ∧ fge (range_pct r) threshold = true) ∧
      ((∃ s, s ∈ out ∧ Summary_ValidGroup s = group_key r)
       ↔ direction r = "green" ∧ fge (range_pct r) threshold = true)
  end.
Proof.
  frame_cases bars.
  pose proof (mark_keywords_two_coloured bars) as Hl.
  pose proof (process_runs pd threshold bars) as Hprocess.
  rewrite (mark_keywords_rows pd bars) by done.
  set (l := with_keyword bars) in *.
  exists (Strings l), (with_groups l), (concat (scored_rows <$> runs l)),
    (concat (flagged_rows threshold <$> runs l)),
    (summary_of <$> filter (qualifies threshold) (runs l)).
  split; [done|]. split; [done|].
  rewrite remove_invalid_rows_runs.
  split; [apply calculate_percentage_differences_runs|].
  split; [by apply identify_valid_groups_runs|].
  split; [by apply transform_valid_groups_runs|].
  split; [by apply Hprocess|].
  split_and!.
  - rewrite fmap_concat, <-!list_fmap_compose. f_equal.
    apply Forall_fmap_ext_1, Forall_forall. intros r _.
    apply flagged_rows_marked.
  - apply Forall_forall.
    intros row (rows & (r & -> & [Hq _]%list_elem_of_filter)%list_elem_of_fmap
                & Hrow)%elem_of_concat.
    unfold flagged_rows in Hrow. rewrite decide_True in Hrow by done.
    apply list_elem_of_fmap in Hrow as (x & -> & _). apply group_key_nonempty.
  - by rewrite <-list_fmap_compose.
  - intros r Hr. change (direction r = "green" ∧ _) with (qualifies threshold r).
    split; split.
    + intros (row & (rows & (r' & -> & [Hq Hr']%list_elem_of_filter)%list_elem_of_fmap
                     & Hrow)%elem_of_concat & Hid).
      assert (run_id r' = run_id r) as Heq.
      { rewrite <-Hid. unfold flagged_rows, scored_rows, grouped_rows in Hrow.
        rewrite <-!list_fmap_compose in Hrow.
        by apply list_elem_of_fmap in Hrow as (x & -> & _). }
      by rewrite <-(NoDup_fmap_inj_on run_id (runs l) r' r)
        by auto using NoDup_run_ids.
    + intros Hq. exists (mkFlagged (mkScored (mkGrouped (first r) (run_id r)
                            (group_key r)) (range_pct r)) (group_key r)).
      split; [|done]. apply elem_of_concat. exists (flagged_rows threshold r).
      split; [by apply list_elem_of_fmap_2, list_elem_of_filter|].
      unfold flagged_rows. rewrite decide_True by done. by left.
    + intros (s & (r' & -> & [Hq Hr']%list_elem_of_filter)%list_elem_of_fmap & Heq).
      cbn in Heq.
      by rewrite <-(NoDup_fmap_inj_on group_key (runs l) r' r)
        by auto using NoDup_group_keys.
    + intros Hq. exists (summary_of r). split; [|done].
      by apply list_elem_of_fmap_2, list_elem_of_filter.
Qed.

(** C7.  Raising the threshold never lets more runs qualify: the number of
    Summary Records under the larger threshold is at most the number under
    the smaller one. *)
Theorem breakout_filter_monotone pd (bars : list Bar) (t1 t2 : float64) :
  fge t2 t1 = true →
  match bars with
  | [] =>
      process pd t1 bars = Raise (empty_frame_error pd) ∧
      process pd t2 bars = Raise (empty_frame_error pd)
  | _ :: _ =>
      ∃ out1 out2,
        process pd t1 bars = Ok out1 ∧ process pd t2 bars = Ok out2 ∧
        length out1 = length (filter (qualifies t1) (runs (with_keyword bars))) ∧
        length out2 = length (filter (qualifies t2) (runs (with_keyword bars))) ∧
        (length out2 ≤ length out1)%nat
  end.
Proof.
  intros Hle. frame_cases bars; [by rewrite !process_empty|].
  do 2 eexists. rewrite !process_runs by done. split_and!; try done.
  - by rewrite length_fmap.
  - by rewrite length_fmap.
  - rewrite !length_fmap.
    induction (runs (with_keyword bars)) as [|r rs IH]; [done|].
    rewrite !filter_cons.
    destruct (decide (qualifies t2 r)) as [[Hdir Hge]|Hn].
    + rewrite decide_True; [simpl; lia|]. split; [done|].
      by apply (fge_trans _ t2).
    + case_decide; simpl; lia.
Qed.

Lemma breakout_filter_monotone_witness :
  ∃ out1 out2,
    process rejects_empty_frame 20 two_runs = Ok out1 ∧
    process rejects_empty_frame 50 two_runs = Ok out2 ∧
    length out1 = length (filter (qualifies 20) (runs (with_keyword two_runs))) ∧
    length out2 = length (filter (qualifies 50) (runs (with_keyword two_runs))) ∧
    (length out2 ≤ length out1)%nat.
Proof.
  apply (breakout_filter_monotone rejects_empty_frame two_runs 20 50). reflexivity.
Defined.

(** Two records at 20 %, one at 50 %. *)
Example breakout_filter_two_runs pd :
  process pd 20 two_runs
  = Ok [mkSummary "X" (Fin 9) (Fin 15) (Some 1%Z)
          (S754_finite false 4691249611844266 (-46)) "green_1";
        mkSummary "X" (Fin 10) (Fin (decimal 125 10)) (Some 4%Z) (Fin 25) "green_3"]
  ∧ process pd 50 two_runs
    = Ok [mkSummary "X" (Fin 9) (Fin 15) (Some 1%Z)
            (S754_finite false 4691249611844266 (-46)) "green_1"].
Proof. vm_compute. done. Qed.

(** ** Frames of any shape

    The stages are total on every frame, blocked or not: a key that
    [unique] lists has a row, so [iloc[0]] finds one, and the groups
    together have as many rows as the frame, so the new column fits. *)

Section groups.
Context {A K : Type} `{EqDecision K} (key : A → K).

Lemma filter_key_nonempty (d : list A) k :
  k ∈ unique (key <$> d) → filter (λ a, key a = k) d ≠ [].
Proof.
  rewrite elem_of_unique. intros (a & -> & Ha)%list_elem_of_fmap Hnil.
  by apply (filter_nil_not_elem_of _ _ a Hnil).
Qed.

Lemma length_concat_replicate {B} (n : K → nat) (v : K → B) (ks : list K) :
  length (concat ((λ k, replicate (n k) (v k)) <$> ks)) = sum_list (n <$> ks).
Proof.
  induction ks as [|k ks IH]; [done|].
  rewrite !fmap_cons. cbn [concat sum_list]. by rewrite length_app, length_replicate, IH.
Qed.

Lemma sum_group_sizes_cons (a : A) (d : list A) (ks : list K) :
  NoDup ks →
  sum_list ((λ k, length (filter (λ x, key x = k) (a :: d))) <$> ks)
  = (if decide (key a ∈ ks) then 1 else 0)
    + sum_list ((λ k, length (filter (λ x, key x = k) d)) <$> ks).
Proof.
  induction 1 as [|k ks Hk _ IH]; [done|].
  rewrite !fmap_cons. cbn [sum_list]. rewrite IH, filter_cons.
  destruct (decide (key a = k)) as [<-|Hne].
  - rewrite (decide_False (P := key a ∈ ks)) by done.
    rewrite (decide_True (P := key a ∈ key a :: ks)) by left. simpl. lia.
  - destruct (decide (key a ∈ ks)).
    + rewrite decide_True by (by right). lia.
    + rewrite decide_False; [lia|]. by intros [?|?]%elem_of_cons.
Qed.

Lemma sum_group_sizes (d : list A) (ks : list K) :
  NoDup ks → (∀ a, a ∈ d → key a ∈ ks) →
  sum_list ((λ k, length (filter (λ x, key x = k) d)) <$> ks) = length d.
Proof.
  intros Hks. induction d as [|a d IH]; intros Hin.
  - clear. induction ks as [|k ks IH]; [done|]. by rewrite fmap_cons.
  - rewrite sum_group_sizes_cons by done.
    rewrite decide_True by (apply Hin; left).
    rewrite IH; [done|]. intros; apply Hin; by right.
Qed.

(** The groups of the unique keys have, together, as many rows as the
    frame. *)
Lemma length_groups {B} (v : K → B) (d : list A) :
  length (concat ((λ k, replicate (length (filter (λ x, key x = k) d)) (v k))
                    <$> unique (key <$> d)))
  = length d.
Proof.
  rewrite (length_concat_replicate (λ k, length (filter (λ x, key x = k) d))).
  apply sum_group_sizes; [apply NoDup_unique|].
  intros a Ha. apply elem_of_unique. by apply list_elem_of_fmap_2.
Qed.
End groups.

Lemma calculate_percentage_differences_total (d : list Grouped) :
  ∃ d', calculate_percentage_differences d = Ok d' ∧ grouped <$> d' = d.
Proof.
  unfold calculate_percentage_differences.
  erewrite (for_each_append _ _
              (λ k, replicate (length (filter (λ row, GroupID row = k) d))
                      (percentage_diff_of (filter (λ row, GroupID row = k) d))));
    [|done]. cbn [bind app]. unfold set_column, col.
  rewrite decide_True
    by apply (length_groups GroupID
                (λ k, percentage_diff_of (filter (λ row, GroupID row = k) d))).
  eexists. split; [done|]. apply fmap_zip_with_l; [done|].
  by rewrite (length_groups GroupID
                (λ k, percentage_diff_of (filter (λ row, GroupID row = k) d))).
Qed.

Lemma identify_valid_groups_total threshold (d : list Scored) :
  ∃ d', identify_valid_groups threshold d = Ok d' ∧ scored <$> d' = d.
Proof.
  unfold identify_valid_groups.
  erewrite (for_each_append _ _
              (λ name,
                 if str_in "green" name then
                   match filter (λ row : Scored, Group row = name) d with
                   | row :: _ =>
                       if fge (PercentageDifference row) threshold
                       then [name] else []
                   | [] => []
                   end
                 else [])).
  - cbn [bind]. eexists. split; [done|].
    rewrite <-list_fmap_compose. apply list_fmap_id.
  - intros name s Hname. destruct (str_in "green" name); [|by rewrite app_nil_r].
    apply (filter_key_nonempty (λ row : Scored, Group row)) in Hname.
    destruct (filter _ d) as [|row rows]; [done|]. unfold col.
    rewrite fmap_cons. cbn [iloc0 bind].
    destruct (fge _ _); [done|by rewrite app_nil_r].
Qed.

(** ** No stage rewrites the bars *)

(** C10.  Each stage before the summary returns the rows it was given,
    in the same order, with columns added and nothing else changed (the
    row it was given is the [bar], [marked], [grouped], [scored] field of
    the row it returns); on a frame with rows no stage raises;
    [remove_invalid_rows] returns a sub-list of its input rows. *)
Theorem stages_keep_the_bars :
  (∀ pd d, d ≠ [] →
     ∃ d', mark_keywords pd d = Ok (Strings d') ∧ bar <$> d' = d) ∧
  (∀ d, ∃ d', assign_groups (Strings d) = Ok d' ∧ marked <$> d' = d) ∧
  (∀ d, ∃ d', calculate_percentage_differences d = Ok d' ∧ grouped <$> d' = d) ∧
  (∀ threshold d,
     ∃ d', identify_valid_groups threshold d = Ok d' ∧ scored <$> d' = d) ∧
  (∀ d, sublist (remove_invalid_rows d) d) ∧
  (∀ pd threshold bars, bars ≠ [] →
     ∃ labelled groups d d',
       mark_keywords pd bars = Ok labelled ∧
       assign_groups labelled = Ok groups ∧
       calculate_percentage_differences groups = Ok d ∧
       identify_valid_groups threshold d = Ok d' ∧
       (λ row : Flagged, bar row) <$> d' = bars).
Proof.
  assert (∀ d, bar <$> with_keyword d = d) as Hmark.
  { intros d. unfold with_keyword. rewrite <-list_fmap_compose. apply list_fmap_id. }
  split_and!.
  - intros pd d Hd. exists (with_keyword d). by rewrite mark_keywords_rows.
  - intros d. exists (with_groups d). split; [done|]. apply assign_groups_keeps_rows.
  - apply calculate_percentage_differences_total.
  - apply identify_valid_groups_total.
  - intros d. apply sublist_filter.
  - intros pd threshold bars Hbars.
    destruct (calculate_percentage_differences_total
                (with_groups (with_keyword bars))) as (d & Hd & Hgrouped).
    destruct (identify_valid_groups_total threshold d) as (d' & Hd' & Hscored).
    exists (Strings (with_keyword bars)), (with_groups (with_keyword bars)), d, d'.
    split_and!; [by apply mark_keywords_rows|done..|].
    transitivity (bar <$> (marked <$> (grouped <$> (scored <$> d')))).
    + by rewrite <-!list_fmap_compose.
    + by rewrite Hscored, Hgrouped, assign_groups_keeps_rows, Hmark.
Qed.

(** ** A run whose lowest Low is zero *)

Lemma process_total pd threshold (bars : list Bar) :
  bars ≠ [] → ∃ out, process pd threshold bars = Ok out.
Proof. eexists. by apply process_runs. Qed.

Lemma summary_listed_iff threshold (bars : list Bar) r :
  r ∈ runs (with_keyword bars) →
  (∃ s, s ∈ summary_of <$> filter (qualifies threshold) (runs (with_keyword bars))
        ∧ Summary_ValidGroup s = group_key r)
  ↔ qualifies threshold r.
Proof.
  intros Hr. rewrite <-(valid_group_iff threshold (with_keyword bars) r)
    by auto using mark_keywords_two_coloured.
  rewrite list_elem_of_fmap. split.
  - intros (s & (r' & -> & Hr')%list_elem_of_fmap & Heq).
    exists r'. by rewrite <-Heq.
  - intros (r' & Heq & Hr'). exists (summary_of r'). split; [|done].
    by apply list_elem_of_fmap_2.
Qed.

Lemma float_100 : Fin 100 = S754_finite false 7036874417766400 (-46).
Proof. vm_compute. reflexivity. Qed.

Lemma range_pct_zero_low r (negative : bool) (hi : finite64) :
  run_low r = Zero negative → run_high r = hi →
  range_pct r
  = match hi with
    | Zero _ => NaN
    | Finite s _ _ => S754_infinity (xorb s negative)
    end.
Proof.
  unfold range_pct. intros -> ->. rewrite float_100.
  destruct hi as [[]|[] m e], negative; reflexivity.
Qed.

(** C6, as the code has it.  No arithmetic fault is raised.  A run whose
    least Low is a zero gets a percentage difference that is not finite:
    NaN when its greatest High is a zero too, and otherwise an infinity,
    +infinity when the High has the sign of the zero (a positive High over
    0.0) and -infinity when it has not (a positive High over -0.0).  Such
    a run is not left out for having a zero Low: under every finite
    threshold it has a Summary Record exactly when it is green and its
    percentage difference is +infinity, and the record carries
    +infinity. *)
Theorem zero_low_run pd (threshold : finite64) (bars : list Bar) (r : Run)
    (negative : bool) (hi : finite64) :
  r ∈ runs (with_keyword bars) →
  run_low r = Zero negative → run_high r = hi →
  ∃ out, process pd threshold bars = Ok out ∧
    range_pct r
    = match hi with
      | Zero _ => NaN
      | Finite s _ _ => if bool_decide (s = negative) then PosInf else NegInf
      end ∧
    ((∃ s, s ∈ out ∧ Summary_ValidGroup s = group_key r)
     ↔ direction r = "green" ∧ ∃ m e, hi = Finite negative m e) ∧
    (direction r = "green" → (∃ m e, hi = Finite negative m e) →
     summary_of r ∈ out ∧ Percentage_Difference (summary_of r) = PosInf).
Proof.
  intros Hr Hlo Hhi.
  assert (bars ≠ []) as Hbars by (intros ->; by apply elem_of_nil in Hr).
  pose proof (range_pct_zero_low r negative hi Hlo Hhi) as Hpct.
  assert (qualifies threshold r
          ↔ direction r = "green" ∧ ∃ m e, hi = Finite negative m e) as Hq.
  { unfold qualifies. rewrite Hpct. clear.
    destruct hi as [sh|sh m e].
    - split; [|by intros [_ (? & ? & ?)]].
      intros [_ ?]. by destruct threshold as [[]|[] ? ?].
    - destruct sh, negative, threshold as [[]|[] ? ?]; cbn;
        (split; [intros [? ?]; try done; split; eauto
                |intros [? (? & ? & ?)]; try done]). }
  eexists. split; [by apply process_runs|]. split_and!.
  - rewrite Hpct. destruct hi as [|[] ? ?], negative; done.
  - by rewrite summary_listed_iff.
  - intros Hdir (m & e & ->). split.
    + apply list_elem_of_fmap_2, list_elem_of_filter. split; [|done].
      apply Hq. eauto.
    + change (range_pct r = PosInf). rewrite Hpct. by destruct negative.
Qed.

Lemma zero_low_run_witness :
  ∃ out, process rejects_empty_frame PERCENTAGE_THRESHOLD [zero_low_bar] = Ok out ∧
    range_pct (mkRun 1 (mkMarked zero_low_bar "green") []) = PosInf ∧
    ((∃ s, s ∈ out ∧ Summary_ValidGroup s
                     = group_key (mkRun 1 (mkMarked zero_low_bar "green") []))
     ↔ direction (mkRun 1 (mkMarked zero_low_bar "green") []) = "green"
       ∧ ∃ m e, float_of_Z 1 = Finite false m e) ∧
    (direction (mkRun 1 (mkMarked zero_low_bar "green") []) = "green" →
     (∃ m e, float_of_Z 1 = Finite false m e) →
     summary_of (mkRun 1 (mkMarked zero_low_bar "green") []) ∈ out ∧
     Percentage_Difference (summary_of (mkRun 1 (mkMarked zero_low_bar "green") []))
     = PosInf).
Proof.
  apply (zero_low_run rejects_empty_frame 20 [zero_low_bar]
           (mkRun 1 (mkMarked zero_low_bar "green") []) false 1).
  - vm_compute. apply list_elem_of_here.
  - reflexivity.
  - reflexivity.
Defined.

(** The claim fails on the code: the green run of [zero_low_bar] has Low 0
    and is in the output, at the threshold of the source and at a
    threshold of one million per cent alike. *)
Lemma zero_low_run_is_emitted :
  runs (with_keyword [zero_low_bar]) = [mkRun 1 (mkMarked zero_low_bar "green") []]
  ∧ run_low (mkRun 1 (mkMarked zero_low_bar "green") []) = Fin 0
  ∧ (∀ pd, process pd PERCENTAGE_THRESHOLD [zero_low_bar]
           = Ok [mkSummary "X" (Fin 0) (Fin 1) (Some 1%Z) PosInf "green_1"])
  ∧ (∀ pd, process pd 1000000 [zero_low_bar]
           = Ok [mkSummary "X" (Fin 0) (Fin 1) (Some 1%Z) PosInf "green_1"]).
Proof. split_and!; try intros pd; vm_compute; reflexivity. Qed.

(** A Low of -0.0 equals 0 as well; over it a positive High gives
    -infinity, and the green run has no record. *)
Example negative_zero_low_run pd :
  process pd PERCENTAGE_THRESHOLD
    [mkBar (mkQuote 1 (Zero true) 1 (Zero true) 1) "X"] = Ok [].
Proof. vm_compute. reflexivity. Qed.

(** ** The orchestrator *)

Section main.
Context (pd : pandas) (download : string → Z → Z → result (list Quote)).
Context (today n_days start_date : Z).
Hypothesis dates : sub_days today n_days = Ok start_date.

Local Abbreviation fetch symbol :=
  (fetch_stock_data download symbol start_date today).
Local Abbreviation body := (main_body pd download start_date today).

Lemma main_loop symbols :
  main pd download today n_days symbols = for_each symbols body [].
Proof. unfold main. cbv zeta. by rewrite dates. Qed.

Lemma main_body_fetched symbol bars combined :
  fetch symbol = Ok bars → bars ≠ [] →
  ∃ out, process pd PERCENTAGE_THRESHOLD bars = Ok out
         ∧ body symbol combined = Ok (combined ++ out).
Proof.
  intros Hfetch Hbars.
  destruct (process_total pd PERCENTAGE_THRESHOLD bars Hbars) as [out Hout].
  exists out. split; [done|]. unfold main_body. by rewrite Hfetch; cbn; rewrite Hout.
Qed.

Lemma main_body_failure symbol e combined :
  fetch symbol = Raise e → body symbol combined = Raise e.
Proof. intros Hfail. unfold main_body. by rewrite Hfail. Qed.

Lemma main_body_empty symbol combined :
  fetch symbol = Ok [] → body symbol combined = Raise (empty_frame_error pd).
Proof.
  intros Hempty. unfold main_body. rewrite Hempty. cbn [bind].
  by rewrite process_empty.
Qed.

(** The loop over symbols whose frames all have rows. *)
Lemma main_loop_fetched symbols frames rest combined :
  Forall2 (λ symbol bars, fetch symbol = Ok bars ∧ bars ≠ []) symbols frames →
  ∃ outs,
    Forall2 (λ bars out, process pd PERCENTAGE_THRESHOLD bars = Ok out) frames outs
    ∧ for_each (symbols ++ rest) body combined
      = for_each rest body (combined ++ concat outs).
Proof.
  intros Hall. revert combined.
  induction Hall as [|s bars symbols frames [Hs Hbars] _ IH]; intros combined.
  - exists []. split; [constructor|]. by rewrite app_nil_r.
  - destruct (main_body_fetched s bars combined Hs Hbars) as (out & Hout & Hbody).
    destruct (IH (combined ++ out)) as (outs & Houts & Hloop).
    exists (out :: outs). split; [by constructor|].
    cbn [app for_each concat]. rewrite Hbody. cbn [bind].
    by rewrite Hloop, <-(assoc_L (++)).
Qed.

(** The loop passes the symbols whose frames have rows. *)
Lemma main_loop_prefix before rest combined :
  Forall (λ s, ∃ bars, fetch s = Ok bars ∧ bars ≠ []) before →
  ∃ combined', for_each (before ++ rest) body combined = for_each rest body combined'.
Proof.
  intros Hbefore. revert combined.
  induction Hbefore as [|s before (bars & Hs & Hbars) _ IH]; intros combined.
  - by exists combined.
  - destruct (main_body_fetched s bars combined Hs Hbars) as (out & _ & Hbody).
    destruct (IH (combined ++ out)) as (combined' & Hloop).
    exists combined'. cbn [app for_each]. by rewrite Hbody.
Qed.

(** The first symbol whose fetch raises decides the result, whatever comes
    after it. *)
Lemma main_first_failure before symbol after e :
  Forall (λ s, ∃ bars, fetch s = Ok bars ∧ bars ≠ []) before →
  fetch symbol = Raise e →
  main pd download today n_days (before ++ symbol :: after) = Raise e.
Proof.
  intros Hbefore Hfail. rewrite main_loop.
  destruct (main_loop_prefix before (symbol :: after) [] Hbefore) as (combined & ->).
  cbn [for_each]. by rewrite (main_body_failure symbol e).
Qed.

(** When every fetch returns a frame with rows, the combined frame is, in
    the order of the list, what the six stages return for each symbol's
    own bars. *)
Lemma main_all_fetched symbols frames :
  Forall2 (λ symbol bars, fetch symbol = Ok bars ∧ bars ≠ []) symbols frames →
  ∃ outs,
    Forall2 (λ bars out, process pd PERCENTAGE_THRESHOLD bars = Ok out) frames outs
    ∧ main pd download today n_days symbols = Ok (concat outs).
Proof.
  intros Hall. rewrite main_loop.
  destruct (main_loop_fetched symbols frames [] [] Hall) as (outs & Houts & Hloop).
  exists outs. split; [done|]. by rewrite app_nil_r in Hloop.
Qed.

(** C8, as the code has it.  An empty series is an error: when the fetch
    of a symbol returns a frame without rows, the six stages raise on it
    ([ValueError] from [mark_keywords] or [AttributeError] from
    [assign_groups], as the pandas installed has it), [main] raises that
    exception, and the batch does not complete: the records of the
    symbols before it are lost and the symbols after it are not
    processed. *)
Theorem main_raises_on_empty_series before symbol after :
  Forall (λ s, ∃ bars, fetch s = Ok bars ∧ bars ≠ []) before →
  fetch symbol = Ok [] →
  (∀ threshold, process pd threshold [] = Raise (empty_frame_error pd)) ∧
  main pd download today n_days (before ++ symbol :: after)
  = Raise (empty_frame_error pd).
Proof.
  intros Hbefore Hempty. split; [intros; apply process_empty|].
  rewrite main_loop.
  destruct (main_loop_prefix before (symbol :: after) [] Hbefore) as (combined & ->).
  cbn [for_each]. by rewrite (main_body_empty symbol).
Qed.
End main.

Lemma main_raises_on_empty_series_witness :
  (∀ threshold, process assigns_empty_frame threshold []
                = Raise (empty_frame_error assigns_empty_frame)) ∧
  main assigns_empty_frame sample_download 738886 30
    (["GOOD"] ++ "EMPTY" :: ["ALSO.NS"])
  = Raise (empty_frame_error assigns_empty_frame).
Proof.
  apply (main_raises_on_empty_series assigns_empty_frame sample_download
           738886 30 738856 eq_refl ["GOOD"] "EMPTY" ["ALSO.NS"]).
  - repeat constructor. eexists. split; [reflexivity|done].
  - reflexivity.
Defined.

(** The batch with the empty series, under either pandas, and the batch
    without it. *)
Example main_with_empty_series :
  main rejects_empty_frame sample_download 738886 30 ["GOOD"; "EMPTY"; "ALSO.NS"]
  = Raise ValueError
  ∧ main assigns_empty_frame sample_download 738886 30 ["GOOD"; "EMPTY"; "ALSO.NS"]
    = Raise AttributeError
  ∧ ∀ pd, main pd sample_download 738886 30 ["GOOD"; "ALSO.NS"]
    = Ok [mkSummary "GOOD" (Fin 9) (Fin 15) (Some 1%Z)
            (S754_finite false 4691249611844266 (-46)) "green_1";
          mkSummary "ALSO.NS" (Fin 9) (Fin 15) (Some 1%Z)
            (S754_finite false 4691249611844266 (-46)) "green_1"].
Proof. split_and!; try intros pd; vm_compute; reflexivity. Qed.

(** The claim C9 fails on the code: the fetch of [BAD] raises, the fetches
    of [GOOD] and [ALSO.NS] succeed and each has a Summary Record, yet
    [main] returns no frame at all. *)
Lemma main_fetch_failure_not_isolated :
  fetch_stock_data sample_download "BAD" 738856 738886
  = Raise (DownloadError "BAD.NS")
  ∧ (∀ pd, main pd sample_download 738886 30 ["GOOD"; "BAD"; "ALSO.NS"]
           = Raise (DownloadError "BAD.NS"))
  ∧ (∀ pd, main pd sample_download 738886 30 ["GOOD"; "ALSO.NS"]
           = Ok [mkSummary "GOOD" (Fin 9) (Fin 15) (Some 1%Z)
                   (S754_finite false 4691249611844266 (-46)) "green_1";
                 mkSummary "ALSO.NS" (Fin 9) (Fin 15) (Some 1%Z)
                   (S754_finite false 4691249611844266 (-46)) "green_1"]).
Proof. split_and!; try intros pd; vm_compute; reflexivity. Qed.

(** * More of the code *)

Local Open Scope nat_scope.

(** ** The pipeline on one symbol: size and order of the output *)

Lemma qualifies_mono (t1 t2 : float64) r :
  fge t2 t1 = true → qualifies t2 r → qualifies t1 r.
Proof. intros Hle [Hdir Hge]. split; [done|]. by apply (fge_trans _ t2). Qed.

Lemma sublist_filter_impl {A} (P Q : A → Prop) `{∀ x, Decision (P x)}
    `{∀ x, Decision (Q x)} (l : list A) :
  (∀ x, P x → Q x) → sublist (filter P l) (filter Q l).
Proof.
  intros HPQ. induction l as [|x l IH]; [constructor|].
  rewrite !filter_cons. destruct (decide (P x)) as [HP|HP].
  - rewrite decide_True by auto. by constructor.
  - case_decide; [by constructor|done].
Qed.

Lemma sublist_fmap_2 {A B} (f : A → B) (l1 l2 : list A) :
  sublist l1 l2 → sublist (f <$> l1) (f <$> l2).
Proof. induction 1; rewrite ?fmap_cons; by constructor. Qed.

(** Raising the threshold only removes records: what is returned under the
    larger threshold is what is returned under the smaller one with some
    records left out, the others unchanged and in the same order. *)
Theorem process_threshold_sublist pd (bars : list Bar) (t1 t2 : float64) :
  fge t2 t1 = true →
  match bars with
  | [] =>
      process pd t1 bars = Raise (empty_frame_error pd) ∧
      process pd t2 bars = Raise (empty_frame_error pd)
  | _ :: _ =>
      ∃ out1 out2,
        process pd t1 bars = Ok out1 ∧ process pd t2 bars = Ok out2 ∧
        sublist out2 out1
  end.
Proof.
  intros Hle. frame_cases bars; [by rewrite !process_empty|].
  do 2 eexists. rewrite !process_runs by done. split_and!; try done.
  apply sublist_fmap_2, sublist_filter_impl. intros r. by apply qualifies_mono.
Qed.

Lemma process_threshold_sublist_witness :
  ∃ out1 out2,
    process rejects_empty_frame 20 two_runs = Ok out1 ∧
    process rejects_empty_frame 50 two_runs = Ok out2 ∧ sublist out2 out1.
Proof.
  apply (process_threshold_sublist rejects_empty_frame two_runs 20 50). reflexivity.
Defined.

Lemma length_segment l : length (segment l) ≤ length l.
Proof.
  induction l as [|x l IH]; [done|]. simpl.
  destruct (segment l) as [|[y ys] blocks]; [simpl; lia|].
  case_decide; simpl in *; lia.
Qed.

Lemma length_runs l : length (runs l) ≤ length l.
Proof.
  unfold runs. etrans; [|apply length_segment].
  generalize 1. induction (segment l) as [|[x xs] blocks IH]; intros n; [done|].
  simpl. specialize (IH (S n)). lia.
Qed.

(** In a list without two equal neighbours a value takes at most every
    other place. *)
Lemma alternating_count (g : string) (ks : list string) :
  alternating ks →
  2 * length (filter (λ k, k = g) ks)
  ≤ length ks + (if decide (head ks = Some g) then 1 else 0).
Proof.
  induction ks as [|k ks IH]; [done|]. intros Halt.
  assert (alternating ks ∧ head ks ≠ Some k) as [Hks Hne].
  { destruct ks as [|k' ks]; [done|]. destruct Halt as [Hne Halt].
    split; [done|]. simpl. congruence. }
  specialize (IH Hks). rewrite filter_cons. simpl.
  destruct (decide (k = g)) as [->|Hkg].
  - rewrite decide_False in IH by done. rewrite decide_True by done. simpl. lia.
  - rewrite (decide_False (P := Some k = Some g)) by congruence.
    case_decide; lia.
Qed.

(** Green runs are separated by red ones, so [n] bars give at most
    [(n + 1) / 2] Summary Records. *)
Theorem process_output_size pd threshold (bars : list Bar) :
  match bars with
  | [] => process pd threshold bars = Raise (empty_frame_error pd)
  | _ :: _ =>
      ∃ out, process pd threshold bars = Ok out ∧ 2 * length out ≤ length bars + 1
  end.
Proof.
  frame_cases bars.
  eexists. split; [by apply process_runs|]. rewrite length_fmap.
  set (l := with_keyword bars).
  assert (length (filter (qualifies threshold) (runs l))
          ≤ length (filter (λ k, k = "green") (direction <$> runs l))) as Hgreen.
  { clear. induction (runs l) as [|r rs IH]; [done|].
    rewrite fmap_cons, !filter_cons.
    destruct (decide (qualifies threshold r)) as [[Hdir _]|_].
    - rewrite decide_True by done. simpl. lia.
    - case_decide; simpl; lia. }
  pose proof (alternating_count "green" _ (runs_alternating l)) as Halt.
  pose proof (length_runs l) as Hlen. rewrite <-(length_fmap direction) in Hlen.
  assert (length l = length bars) as <- by apply length_fmap.
  case_decide; lia.
Qed.

(** A series with rows, none of which closes above its open, has no
    record. *)
Theorem process_no_green_candle pd threshold (bars : list Bar) :
  bars ≠ [] →
  Forall (λ b : Bar, flt (Open b) (Close b) = false) bars →
  process pd threshold bars = Ok [].
Proof.
  intros Hbars Hred. rewrite process_runs by done.
  rewrite (filter_none (qualifies threshold)); [done|].
  apply Forall_forall. intros r Hr [Hdir _].
  assert (first r ∈ with_keyword bars) as Hin.
  { eapply run_members_in_frame; [done|]. by left. }
  apply list_elem_of_fmap in Hin as (b & Hb & Hin).
  rewrite Forall_forall in Hred. specialize (Hred b Hin).
  unfold direction in Hdir. rewrite Hb in Hdir. cbn in Hdir.
  by rewrite Hred in Hdir.
Qed.

Lemma process_no_green_candle_witness :
  process rejects_empty_frame PERCENTAGE_THRESHOLD
    [mkBar (mkQuote 1 10 12 9 10) "X"; mkBar (mkQuote 2 10 11 5 6) "X"] = Ok [].
Proof.
  apply process_no_green_candle; [done|]. repeat constructor.
Defined.

(** A series of one candle is one run of one candle: it gives one record,
    made of that candle alone, when the candle is green and its own range,
    computed in float64, reaches the threshold, and no record otherwise. *)
Theorem process_single_bar pd threshold (b : Bar) :
  process pd threshold [b]
  = Ok (if flt (Open b) (Close b)
           && fge (fmul (fdiv (fsub (Fin (High b)) (Fin (Low b))) (Fin (Low b)))
                     (Fin 100)) threshold
        then [mkSummary (Symbol b) (Fin (Low b)) (Fin (High b)) (Some (Date b))
                (fmul (fdiv (fsub (Fin (High b)) (Fin (Low b))) (Fin (Low b)))
                   (Fin 100)) "green_1"]
        else []).
Proof.
  rewrite process_runs by done.
  cbn [with_keyword fmap list_fmap runs segment number_from].
  rewrite filter_cons, filter_nil.
  set (pct := fmul (fdiv (fsub (Fin (High b)) (Fin (Low b))) (Fin (Low b))) (Fin 100)).
  destruct (decide (qualifies threshold _)) as [[Hdir Hge]|Hn].
  - unfold direction in Hdir. cbn in Hdir. change (range_pct _) with pct in Hge.
    destruct (flt (Open b) (Close b)); [|done]. by rewrite Hge.
  - destruct (flt (Open b) (Close b)) eqn:Hlt; [|done].
    destruct (fge pct threshold) eqn:Hge; [|done].
    by destruct Hn.
Qed.

Lemma sublist_StronglySorted {A} (R : relation A) (l1 l2 : list A) :
  sublist l1 l2 → StronglySorted R l2 → StronglySorted R l1.
Proof.
  induction 1 as [|x l1 l2 Hsub IH|x l1 l2 Hsub IH]; [done|..];
    intros [Hx Hl2]%StronglySorted_cons; [|by apply IH].
  apply StronglySorted_cons. split; [|by apply IH].
  rewrite Forall_forall in Hx. apply Forall_forall.
  intros y Hy. apply Hx. by eapply elem_of_sublist.
Qed.

Lemma sublist_concat_elem {A} (l : list A) (ls : list (list A)) :
  l ∈ ls → sublist l (concat ls).
Proof.
  induction ls as [|l' ls IH]; [by intros ?%elem_of_nil|].
  intros [->|Hin]%elem_of_cons; cbn [concat].
  - by apply sublist_inserts_r.
  - by apply sublist_inserts_l, IH.
Qed.

Lemma sublist_firsts (rs : list Run) :
  sublist (first <$> rs) (concat (members <$> rs)).
Proof.
  induction rs as [|r rs IH]; [done|].
  rewrite !fmap_cons. cbn [concat]. unfold members at 1. cbn [app].
  by apply sublist_skip, sublist_inserts_l.
Qed.

Lemma index_min_sorted (d : Z) (ds : list Z) :
  StronglySorted Z.lt (d :: ds) → index_min (d :: ds) = Some d.
Proof.
  intros [Hd _]%StronglySorted_cons. cbn [index_min]. f_equal.
  induction Hd as [|x ds Hx _ IH]; [done|]. cbn [fold_left].
  by rewrite Z.min_l by lia.
Qed.

(** When the bars come in strictly increasing date order, the Earliest Date
    of a record is the date of the first bar of its run, and the records
    are in strictly increasing date order themselves. *)
Theorem process_dates_in_order pd threshold (bars : list Bar) :
  StronglySorted Z.lt (col bars (λ b, Date b)) →
  match bars with
  | [] => process pd threshold bars = Raise (empty_frame_error pd)
  | _ :: _ =>
      ∃ out dates,
        process pd threshold bars = Ok out ∧
        Earliest_Date <$> out = Some <$> dates ∧
        dates = (λ r, Date (first r))
                  <$> filter (qualifies threshold) (runs (with_keyword bars)) ∧
        StronglySorted Z.lt dates
  end.
Proof.
  intros Hsorted. frame_cases bars. set (l := with_keyword bars).
  assert (StronglySorted Z.lt (col l (λ row, Date row))) as Hl.
  { unfold l, with_keyword, col. by rewrite <-list_fmap_compose. }
  do 2 eexists. split; [by apply process_runs|]. split_and!; [|done|].
  - rewrite <-!list_fmap_compose. apply Forall_fmap_ext_1, Forall_forall.
    intros r [_ Hr]%list_elem_of_filter. cbn.
    change (col (members r) (λ row, Date row))
      with (Date (first r) :: col (rest r) (λ row, Date row)).
    apply index_min_sorted.
    apply (sublist_StronglySorted _ (col (members r) (λ row, Date row))
             (col l (λ row, Date row))); [|done].
    apply sublist_fmap_2. rewrite <-(concat_members_runs l).
    by apply sublist_concat_elem, list_elem_of_fmap_2.
  - apply (sublist_StronglySorted _ _ (col l (λ row, Date row))); [|done].
    rewrite (list_fmap_compose first (λ row : Marked, Date row)).
    apply sublist_fmap_2. etrans; [apply sublist_fmap_2, sublist_filter|].
    rewrite <-(concat_members_runs l) at 2. apply sublist_firsts.
Qed.

Lemma process_dates_in_order_witness :
  ∃ out dates,
    process rejects_empty_frame 20 two_runs = Ok out ∧
    Earliest_Date <$> out = Some <$> dates ∧
    dates = (λ r, Date (first r))
              <$> filter (qualifies 20) (runs (with_keyword two_runs)) ∧
    StronglySorted Z.lt dates.
Proof.
  apply (process_dates_in_order rejects_empty_frame 20 two_runs).
  repeat constructor; vm_compute; reflexivity.
Defined.

(** ** Group identifiers *)

Lemma gids_from_bounds prev acc kw :
  StronglySorted le (gids_from prev acc kw) ∧
  Forall (λ g, acc ≤ g ≤ acc + length kw) (gids_from prev acc kw).
Proof.
  revert prev acc. induction kw as [|k kw IH]; intros prev acc.
  - split; constructor.
  - cbn [gids_from length]. set (acc' := acc + _).
    assert (acc ≤ acc' ≤ acc + 1) as Hacc by (unfold acc'; case_bool_decide; lia).
    destruct (IH (Some k) acc') as [Hsorted Hall]. split.
    + apply StronglySorted_cons. split; [|done].
      eapply Forall_impl; [apply Hall|]. intros g ?. simpl in *. lia.
    + constructor; [lia|]. eapply Forall_impl; [apply Hall|].
      intros g ?. simpl in *. lia.
Qed.

(** The [GroupID] column never decreases down the frame, and every id lies
    between 1 and the number of rows. *)
Theorem assign_groups_ids_sorted (l : list Marked) :
  ∃ df, assign_groups (Strings l) = Ok df ∧
    StronglySorted le (col df GroupID) ∧
    Forall (λ g, 1 ≤ g ≤ length l) (col df GroupID).
Proof.
  exists (with_groups l). split; [done|].
  assert (col (with_groups l) GroupID = gids_from None 0 (col l Keyword)) as ->.
  { rewrite assign_groups_zip. unfold col. rewrite fmap_zip_with_r; [done..|].
    rewrite <-(length_fmap Keyword l). generalize (Keyword <$> l). intros kw.
    generalize (@None string) 0. induction kw as [|k kw IH]; intros prev acc; [done|].
    cbn. specialize (IH (Some k) (acc + (if bool_decide (Some k ≠ prev) then 1 else 0))).
    lia. }
  destruct (gids_from_bounds None 0 (col l Keyword)) as [Hsorted Hall].
  split; [done|]. destruct l as [|x l]; [constructor|].
  unfold col in *. rewrite fmap_cons in *. cbn [gids_from] in *.
  apply Forall_cons in Hall as [_ Hall]. rewrite bool_decide_true in * by done.
  destruct (gids_from_bounds (Some (Keyword x)) (0 + 1) (Keyword <$> l)) as [_ Hall'].
  constructor; [cbn; lia|]. eapply Forall_impl; [apply Hall'|].
  intros g. rewrite length_fmap. cbn. lia.
Qed.

Lemma rows_of_assign_groups (bars : list Bar) (row : Grouped) :
  row ∈ with_groups (with_keyword bars) →
  ∃ r, r ∈ runs (with_keyword bars) ∧ GroupID row = run_id r
       ∧ Group row = group_key r ∧ Keyword row = direction r.
Proof.
  rewrite assign_groups_runs.
  intros (rows & (r & -> & Hr)%list_elem_of_fmap & Hrow)%elem_of_concat.
  exists r. unfold grouped_rows in Hrow.
  apply list_elem_of_fmap in Hrow as (m & -> & Hm). split_and!; try done.
  pose proof (runs_same_keyword (with_keyword bars)) as Hsame.
  rewrite Forall_forall in Hsame. specialize (Hsame r Hr).
  rewrite Forall_forall in Hsame. by apply Hsame.
Qed.

(** [calculate_percentage_differences] groups the rows by [GroupID],
    [identify_valid_groups] by the [Group] name.  On the frame the
    pipeline builds the two keys select the same groups: the name is
    [Keyword_GroupID], and two rows have the same name exactly when they
    have the same [GroupID]. *)
Theorem group_name_identifies_group_id pd (bars : list Bar) labelled groups
    (row1 row2 : Grouped) :
  mark_keywords pd bars = Ok labelled → assign_groups labelled = Ok groups →
  row1 ∈ groups → row2 ∈ groups →
  Group row1 = Keyword row1 +:+ "_" +:+ str (GroupID row1) ∧
  (Group row1 = Group row2 ↔ GroupID row1 = GroupID row2).
Proof.
  intros Hmark Hassign.
  assert (groups = with_groups (with_keyword bars)) as ->.
  { destruct bars as [|b bars]; [by destruct pd; simplify_eq/=|].
    by simplify_eq/=. }
  intros (r1 & Hr1 & Hid1 & Hg1 & Hk1)%rows_of_assign_groups
         (r2 & Hr2 & Hid2 & Hg2 & Hk2)%rows_of_assign_groups.
  pose proof (mark_keywords_two_coloured bars) as Hl.
  rewrite Hg1, Hg2, Hid1, Hid2, Hk1. split; [done|]. split; intros Heq.
  - by rewrite (NoDup_fmap_inj_on group_key (runs (with_keyword bars)) r1 r2
                  (NoDup_group_keys _ Hl)).
  - by rewrite (NoDup_fmap_inj_on run_id (runs (with_keyword bars)) r1 r2
                  (NoDup_run_ids _)).
Qed.

(** On [two_runs]: the first row is of the green run 1, the third of the
    red run 2. *)
Lemma group_name_identifies_group_id_witness :
  Group (mkGrouped (mkMarked (mkBar (mkQuote 1 10 12 9 11) "X") "green") 1 "green_1")
  = Keyword (mkGrouped (mkMarked (mkBar (mkQuote 1 10 12 9 11) "X") "green") 1 "green_1")
    +:+ "_" +:+
    str (GroupID (mkGrouped (mkMarked (mkBar (mkQuote 1 10 12 9 11) "X") "green") 1
                    "green_1")) ∧
  (Group (mkGrouped (mkMarked (mkBar (mkQuote 1 10 12 9 11) "X") "green") 1 "green_1")
   = Group (mkGrouped (mkMarked (mkBar (mkQuote 3 14 14 13 13) "X") "red") 2 "red_2")
   ↔ GroupID (mkGrouped (mkMarked (mkBar (mkQuote 1 10 12 9 11) "X") "green") 1
                "green_1")
     = GroupID (mkGrouped (mkMarked (mkBar (mkQuote 3 14 14 13 13) "X") "red") 2
                  "red_2")).
Proof.
  apply (group_name_identifies_group_id rejects_empty_frame two_runs
           (Strings (with_keyword two_runs))
           (with_groups (with_keyword two_runs))).
  - reflexivity.
  - reflexivity.
  - vm_compute. apply list_elem_of_here.
  - vm_compute. do 2 apply list_elem_of_further. apply list_elem_of_here.
Defined.

(** The group identifiers of the records are pairwise distinct, and each
    is ["green_"] followed by the decimal number of its run, a number
    between 1 and the number of bars. *)
Theorem process_group_identifiers pd threshold (bars : list Bar) :
  match bars with
  | [] => process pd threshold bars = Raise (empty_frame_error pd)
  | _ :: _ =>
      ∃ out, process pd threshold bars = Ok out ∧
        NoDup (Summary_ValidGroup <$> out) ∧
        Forall (λ s, ∃ n, 1 ≤ n ≤ length bars
                          ∧ Summary_ValidGroup s = "green_" +:+ str n) out
  end.
Proof.
  frame_cases bars.
  pose proof (mark_keywords_two_coloured bars) as Hl.
  eexists. split; [by apply process_runs|]. split.
  - rewrite <-list_fmap_compose.
    by apply (NoDup_fmap_filter group_key), NoDup_group_keys.
  - apply Forall_fmap, Forall_forall. intros r [[Hdir _] Hr]%list_elem_of_filter.
    exists (run_id r). split.
    + apply (list_elem_of_fmap_2 run_id) in Hr. rewrite run_ids_runs in Hr.
      apply elem_of_seq in Hr. pose proof (length_runs (with_keyword bars)) as Hlen.
      unfold with_keyword in Hlen at 2. rewrite length_fmap in Hlen. lia.
    + cbn. unfold group_key. by rewrite Hdir.
Qed.

(** ** The stages on a frame of any shape *)

Lemma elem_of_concat_singletons {A B} (f : A → list B) (xs : list A) (g : A → B) y :
  (∀ x, f x = [g x] ∨ f x = []) →
  y ∈ concat (f <$> xs) ↔ ∃ x, x ∈ xs ∧ f x = [g x] ∧ y = g x.
Proof.
  intros Hf. rewrite elem_of_concat. split.
  - intros (l & (x & -> & Hx)%list_elem_of_fmap & Hy).
    destruct (Hf x) as [Hfx|Hfx]; rewrite Hfx in Hy.
    + apply list_elem_of_singleton in Hy. eauto.
    + by apply elem_of_nil in Hy.
  - intros (x & Hx & Hfx & ->). exists (f x). split.
    + by apply list_elem_of_fmap_2.
    + rewrite Hfx. by left.
Qed.

(** On every frame [identify_valid_groups] returns, and it judges a group
    by its name and by the [PercentageDifference] of its first row alone:
    a row keeps its [Group] as [ValidGroup] when the name contains "green"
    and the first row of the frame with that name reaches the threshold,
    and gets the empty string otherwise. *)
Theorem identify_valid_groups_first_row threshold (d : list Scored) :
  ∃ d', identify_valid_groups threshold d = Ok d' ∧ scored <$> d' = d ∧
    Forall (λ row' : Flagged,
      ∃ first_row,
        head (filter (λ x : Scored, Group x = Group row') d) = Some first_row ∧
        ValidGroup row'
        = if str_in "green" (Group row')
             && fge (PercentageDifference first_row) threshold
          then Group row' else "") d'.
Proof.
  set (h := λ name : string,
         if str_in "green" name then
           match filter (λ row : Scored, Group row = name) d with
           | row :: _ =>
               if fge (PercentageDifference row) threshold then [name] else []
           | [] => []
           end
         else []).
  unfold identify_valid_groups. erewrite (for_each_append _ _ h).
  2:{ intros name s Hname. unfold h.
      destruct (str_in "green" name); [|by rewrite app_nil_r].
      apply (filter_key_nonempty (λ row : Scored, Group row)) in Hname.
      destruct (filter _ d) as [|row rows]; [done|]. unfold col.
      rewrite fmap_cons. cbn [iloc0 bind].
      destruct (fge _ _); [done|by rewrite app_nil_r]. }
  cbn [bind app]. eexists. split; [done|]. split.
  { rewrite <-list_fmap_compose. apply list_fmap_id. }
  assert (∀ name, h name = [name] ∨ h name = []) as Hh.
  { intros name. unfold h. destruct (str_in "green" name); [|by right].
    destruct (filter (λ row : Scored, Group row = name) d) as [|? ?]; [by right|].
    destruct (fge _ _); auto. }
  apply Forall_fmap, Forall_forall. intros row Hrow. cbn.
  assert (Group row ∈ unique (col d (λ row : Scored, Group row))) as Hname.
  { apply elem_of_unique. by apply (list_elem_of_fmap_2 (λ row : Scored, Group row)). }
  pose proof (filter_key_nonempty (λ row : Scored, Group row) d _ Hname) as Hne.
  destruct (filter (λ x : Scored, Group x = Group row) d) as [|first_row rows] eqn:Hgroup;
    [done|].
  exists first_row. split; [done|].
  destruct (str_in "green" (Group row) && fge _ _) eqn:Hcond.
  - rewrite bool_decide_true; [done|].
    apply (elem_of_concat_singletons h _ id _ Hh).
    exists (Group row). split; [done|].
    split; [|done]. unfold h. rewrite Hgroup.
    apply andb_true_iff in Hcond as [-> ->]. done.
  - rewrite bool_decide_false; [done|].
    intros (name & _ & Hhn & Heq)%(elem_of_concat_singletons h _ id _ Hh).
    unfold id in *. subst name. unfold h in Hhn. rewrite Hgroup in Hhn.
    apply andb_false_iff in Hcond as [Hc|Hc]; rewrite Hc in Hhn; try done.
    by destruct (str_in "green" (Group row)).
Qed.

(** On every frame [transform_valid_groups] returns one record for each
    distinct non-empty [ValidGroup], in order of first appearance, and none
    for the empty one.  The Symbol and the percentage of a record are
    those of the first row of its group; Low, High and date are taken over
    all rows of the group. *)
Theorem transform_valid_groups_any_frame (d : list Flagged) :
  ∃ out, transform_valid_groups d = Ok out ∧
    Summary_ValidGroup <$> out
    = filter (λ name, name ≠ "") (unique (col d ValidGroup)) ∧
    Forall (λ s,
      let group_data := filter (λ row, ValidGroup row = Summary_ValidGroup s) d in
      ∃ first_row,
        head group_data = Some first_row ∧
        Summary_Symbol s = Symbol first_row ∧
        Percentage_Difference s = PercentageDifference first_row ∧
        Lowest_Low s = series_min (col group_data (λ row, Low row)) ∧
        Highest_High s = series_max (col group_data (λ row, High row)) ∧
        Earliest_Date s = index_min (col group_data (λ row, Date row))) out.
Proof.
  set (h := λ name : string,
         if bool_decide (name ≠ "") then
           match filter (λ row, ValidGroup row = name) d with
           | row :: rows =>
               [mkSummary (Symbol row)
                  (series_min (col (row :: rows) (λ row, Low row)))
                  (series_max (col (row :: rows) (λ row, High row)))
                  (index_min (col (row :: rows) (λ row, Date row)))
                  (PercentageDifference row) name]
           | [] => []
           end
         else []).
  unfold transform_valid_groups. erewrite (for_each_append _ _ h).
  2:{ intros name s Hname. unfold h.
      case_bool_decide; [|by rewrite app_nil_r].
      apply (filter_key_nonempty ValidGroup) in Hname.
      by destruct (filter _ d) as [|row rows]. }
  cbn [app]. eexists. split; [done|].
  assert (∀ names, (∀ name, name ∈ names → filter (λ row, ValidGroup row = name) d ≠ []) →
            Summary_ValidGroup <$> concat (h <$> names)
            = filter (λ name, name ≠ "") names
            ∧ Forall (λ s,
                let group_data :=
                  filter (λ row, ValidGroup row = Summary_ValidGroup s) d in
                ∃ first_row,
                  head group_data = Some first_row ∧
                  Summary_Symbol s = Symbol first_row ∧
                  Percentage_Difference s = PercentageDifference first_row ∧
                  Lowest_Low s = series_min (col group_data (λ row, Low row)) ∧
                  Highest_High s = series_max (col group_data (λ row, High row)) ∧
                  Earliest_Date s = index_min (col group_data (λ row, Date row)))
                (concat (h <$> names))) as Hnames.
  { induction names as [|name names IH]; intros Hne; [by split|].
    destruct IH as [IH1 IH2]; [intros; apply Hne; by right|].
    rewrite fmap_cons, filter_cons. cbn [concat].
    rewrite fmap_app, Forall_app, IH1.
    pose proof (Hne name (list_elem_of_here _ _)) as Hgroup.
    destruct (decide (name ≠ "")) as [Hname|Hname].
    - destruct (filter (λ row, ValidGroup row = name) d) as [|row rows] eqn:Hf; [done|].
      assert (h name
              = [mkSummary (Symbol row)
                   (series_min (col (row :: rows) (λ row, Low row)))
                   (series_max (col (row :: rows) (λ row, High row)))
                   (index_min (col (row :: rows) (λ row, Date row)))
                   (PercentageDifference row) name]) as ->.
      { unfold h. by rewrite bool_decide_true, Hf. }
      split; [done|]. split; [|done]. constructor; [|constructor].
      cbn. rewrite Hf. by exists row.
    - assert (h name = []) as ->.
      { unfold h. by rewrite bool_decide_false. }
      by split. }
  apply Hnames. intros name Hname. by apply (filter_key_nonempty ValidGroup).
Qed.

(** ** Fetching *)

Lemma string_length_app (s1 s2 : string) :
  String.length (s1 +:+ s2) = String.length s1 + String.length s2.
Proof. induction s1 as [|c s1 IH]; [done|]. simpl. f_equal. apply IH. Qed.

Lemma substring_all (s : string) : String.substring 0 (String.length s) s = s.
Proof. induction s as [|c s IH]; [done|]. simpl. f_equal. apply IH. Qed.

Lemma substring_app_r (s1 s2 : string) :
  String.substring (String.length s1) (String.length s2) (s1 +:+ s2) = s2.
Proof. induction s1 as [|c s1 IH]; [apply substring_all|]. simpl. apply IH. Qed.

Lemma endswith_app (s suffix : string) : endswith (s +:+ suffix) suffix = true.
Proof.
  unfold endswith. rewrite string_length_app.
  rewrite bool_decide_true by lia. cbn [andb].
  replace (String.length s + String.length suffix - String.length suffix)
    with (String.length s) by lia.
  rewrite substring_app_r. apply String.eqb_refl.
Qed.

(** [fetch_stock_data] always asks the download for a ticker that ends in
    [.NS]: the symbol itself when it has the suffix, the symbol with the
    suffix added when it has not.  What comes back is returned row by
    row, in order, with the symbol as it was given (not the ticker) in the
    [Symbol] column; an exception of the download is passed on. *)
Theorem fetch_stock_data_ticker (download : string → Z → Z → result (list Quote))
    (symbol : string) (start_date end_date : Z) :
  ∃ ticker,
    endswith ticker ".NS" = true ∧
    (ticker = symbol ∨ endswith symbol ".NS" = false ∧ ticker = symbol +:+ ".NS") ∧
    match download ticker start_date end_date with
    | Ok quotes =>
        ∃ bars, fetch_stock_data download symbol start_date end_date = Ok bars ∧
                (λ b : Bar, quote b) <$> bars = quotes ∧
                Forall (λ b, Symbol b = symbol) bars
    | Raise e => fetch_stock_data download symbol start_date end_date = Raise e
    end.
Proof.
  unfold fetch_stock_data.
  exists (if endswith symbol ".NS" then symbol else symbol +:+ ".NS"). split_and!.
  - destruct (endswith symbol ".NS") eqn:Hs; [done|apply endswith_app].
  - destruct (endswith symbol ".NS"); auto.
  - destruct (download _ start_date end_date) as [quotes|e]; [|done]. cbn [bind].
    eexists. split_and!; [done|..].
    + rewrite <-list_fmap_compose. apply list_fmap_id.
    + apply Forall_fmap, Forall_forall. by intros.
Qed.

(** ** The orchestrator, continued *)

Lemma process_symbols pd threshold (bars : list Bar) out symbol :
  process pd threshold bars = Ok out → Forall (λ b, Symbol b = symbol) bars →
  Forall (λ s, Summary_Symbol s = symbol) out.
Proof.
  destruct (decide (bars = [])) as [->|Hne]; [by rewrite process_empty|].
  rewrite process_runs by done. intros [= <-] Hbars. rewrite Forall_forall in Hbars.
  apply Forall_fmap, Forall_forall. intros r [_ Hr]%list_elem_of_filter. cbn.
  assert (first r ∈ with_keyword bars) as Hin.
  { eapply run_members_in_frame; [done|]. by left. }
  apply list_elem_of_fmap in Hin as (b & -> & Hb). by apply Hbars.
Qed.

(** Every record [main] hands to [save_to_csv] carries, as its Symbol, one
    of the listed symbols, spelt as in the list (without the [.NS] that
    the fetch may have added). *)
Theorem main_symbols_as_listed pd (download : string → Z → Z → result (list Quote))
    (today n_days : Z) (symbols : list string) (combined : list Summary) :
  main pd download today n_days symbols = Ok combined →
  Forall (λ s, Summary_Symbol s ∈ symbols) combined.
Proof.
  unfold main. cbv zeta.
  destruct (sub_days today n_days) as [start_date|e]; [|done]. cbn [bind].
  assert (∀ listed acc,
            Forall (λ s, Summary_Symbol s ∈ symbols) acc →
            (∀ symbol, symbol ∈ listed → symbol ∈ symbols) →
            for_each listed (main_body pd download start_date today) acc = Ok combined →
            Forall (λ s, Summary_Symbol s ∈ symbols) combined) as Hloop.
  { induction listed as [|symbol listed IH]; intros acc Hacc Hsub.
    - by intros [= <-].
    - cbn [for_each]. unfold main_body at 1, fetch_stock_data.
      destruct (download _ _ _) as [quotes|e]; [|done]. cbn [bind].
      destruct (process pd PERCENTAGE_THRESHOLD _) as [out|e] eqn:Hout; [|done].
      cbn [bind]. apply IH; [|intros; apply Hsub; by right].
      apply Forall_app. split; [done|].
      eapply Forall_impl; [eapply (process_symbols _ _ _ _ symbol); [done|]|].
      + apply Forall_fmap, Forall_forall. by intros.
      + intros s Hs. cbn in Hs. rewrite Hs. apply Hsub. by left. }
  by apply (Hloop symbols []).
Qed.

Lemma main_symbols_as_listed_witness :
  Forall (λ s, Summary_Symbol s ∈ ["GOOD"; "ALSO.NS"])
    [mkSummary "GOOD" (Fin 9) (Fin 15) (Some 1%Z)
       (S754_finite false 4691249611844266 (-46)) "green_1";
     mkSummary "ALSO.NS" (Fin 9) (Fin 15) (Some 1%Z)
       (S754_finite false 4691249611844266 (-46)) "green_1"].
Proof.
  apply (main_symbols_as_listed rejects_empty_frame sample_download 738886 30).
  vm_compute. reflexivity.
Defined.

Lemma main_all_fetched_witness :
  ∃ outs,
    Forall2 (λ bars out, process rejects_empty_frame PERCENTAGE_THRESHOLD bars = Ok out)
      [[mkBar (mkQuote 1 10 12 9 11) "GOOD"; mkBar (mkQuote 2 11 15 10 14) "GOOD"];
       [mkBar (mkQuote 1 10 12 9 11) "ALSO.NS"; mkBar (mkQuote 2 11 15 10 14) "ALSO.NS"]]
      outs
    ∧ main rejects_empty_frame sample_download 738886 30 ["GOOD"; "ALSO.NS"]
      = Ok (concat outs).
Proof.
  apply (main_all_fetched rejects_empty_frame sample_download 738886 30 738856 eq_refl).
  repeat constructor; done.
Defined.

(** ** The scripts: traces *)

Lemma attempted_first_failure w start_date end_date before symbol after e :
  Forall (λ s, ∃ q, yf_download w (ticker_of s) start_date end_date = Ok q ∧ q ≠ [])
    before →
  yf_download w (ticker_of symbol) start_date end_date = Raise e →
  attempted w start_date end_date (before ++ symbol :: after) = before ++ [symbol].
Proof.
  intros Hbefore Hfail.
  induction Hbefore as [|s before (q & Hq & Hne) _ IH]; cbn [app attempted].
  - by rewrite Hfail.
  - rewrite Hq, IH. by destruct q.
Qed.

(** The loop of [main], with its downloads: the trace is one download per
    attempted symbol, the outcome that of the loop without the trace. *)
Lemma v20_loop w (start_date : Z) (symbols : list string) (acc : list Summary) :
  for_io symbols (λ symbol combined_data,
    let! stock_data :=
      V20.fetch_stock_data w symbol start_date (datetime_today w) in
    let! stock_data :=
      ([], of_result (process (pandas_installed w) PERCENTAGE_THRESHOLD stock_data)) in
    io_ret (combined_data ++ stock_data)) acc
  = ((λ s, Download (ticker_of s) start_date (datetime_today w))
       <$> attempted w start_date (datetime_today w) symbols,
     of_result (for_each symbols
                  (main_body (pandas_installed w) (yf_download w) start_date
                     (datetime_today w)) acc)).
Proof.
  revert acc. induction symbols as [|s symbols IH]; intros acc; [done|].
  cbn [for_io attempted for_each]. unfold main_body at 1.
  unfold V20.fetch_stock_data at 1. unfold fetch_stock_data, call. fold (ticker_of s).
  destruct (yf_download w (ticker_of s) _ _) as [[|quote quotes]|e]; [| |done].
  { cbn [of_result bind io_bind io_ret fst snd app fmap list_fmap].
    by rewrite process_empty. }
  destruct (process_total (pandas_installed w) PERCENTAGE_THRESHOLD
              ((λ row, mkBar row s) <$> quote :: quotes)) as [out Hout]; [done|].
  cbn [of_result bind io_bind io_ret fst snd app]. rewrite Hout.
  cbn [of_result bind io_bind io_ret fst snd app]. rewrite IH.
  by rewrite fmap_cons.
Qed.

Ltac io_step := cbn [io_bind io_ret call fst snd app of_result].

Lemma dir_check_ready {D} w (output_dir : string) :
  dir_ready w output_dir →
  (if os_path_exists w output_dir then io_ret tt
   else call (MakeDirs output_dir) (os_makedirs w output_dir))
  = (@dir_events D w output_dir, Returned tt).
Proof.
  unfold dir_events, call, io_ret. intros [->| ->]; [done|].
  by destruct (os_path_exists w output_dir).
Qed.

Lemma v20_save_combined w (data : list Summary) (output_dir : string) :
  V20.save_to_csv w data "Combined" output_dir
  = match to_csv w (os_path_join output_dir "Combined_stock_data.csv") with
    | Returned _ =>
        ([ToCsv (os_path_join output_dir "Combined_stock_data.csv") data;
          Print ("Data for Combined fetched and saved to "
                 +:+ os_path_join output_dir "Combined_stock_data.csv" +:+ ".")],
         Returned tt)
    | Raised e =>
        ([ToCsv (os_path_join output_dir "Combined_stock_data.csv") data], Raised e)
    end.
Proof.
  unfold V20.save_to_csv, call.
  change (split_dot_0 "Combined" +:+ "_stock_data.csv") with "Combined_stock_data.csv".
  by destruct (to_csv w _) as [[]|e].
Qed.

(** [main] of [v20.py] with its effects, once the dates are computed, the
    directory is there and the symbol file has a [symbol] column, case by
    case. *)
Lemma v20_main_closed_form w (n_days start_date : Z) (csv_file output_dir : string)
    df symbols :
  sub_days (datetime_today w) n_days = Ok start_date →
  dir_ready w output_dir →
  pd_read_csv w csv_file = Returned df → df !! "symbol" = Some symbols →
  V20.main w n_days csv_file output_dir
  = let end_date := datetime_today w in
    let before_saving :=
      dir_events w output_dir ++ [ReadCsv csv_file] ++
      ((λ s, Download (ticker_of s) start_date end_date)
         <$> attempted w start_date end_date symbols) in
    match main (pandas_installed w) (yf_download w) (datetime_today w) n_days
            symbols with
    | Ok combined_data =>
        let csv_file_path := os_path_join output_dir "Combined_stock_data.csv" in
        match to_csv w csv_file_path with
        | Returned _ =>
            (before_saving ++
               [ToCsv csv_file_path combined_data;
                Print ("Data for Combined fetched and saved to "
                       +:+ csv_file_path +:+ ".")],
             Returned tt)
        | Raised e => (before_saving ++ [ToCsv csv_file_path combined_data], Raised e)
        end
    | Raise e => (before_saving, Raised (Pipeline e))
    end.
Proof.
  intros Hdates Hdir Hread Hcolumn. unfold V20.main. cbv zeta.
  rewrite Hdates. io_step.
  rewrite dir_check_ready by done. unfold V20.read_symbols_from_csv.
  io_step. rewrite Hread. io_step. rewrite Hcolumn. io_step.
  rewrite v20_loop, <-(main_loop _ _ _ n_days) by done.
  destruct (main _ _ _ _ _) as [combined|e]; io_step; [|done].
  rewrite v20_save_combined.
  destruct (to_csv w _) as [u|e]; io_step; by rewrite <-!(assoc_L (++)).
Qed.

(** The two runs of the sample worlds: a download that raises leaves no
    file; without it the combined frame is written once. *)
Example v20_main_sample_runs :
  V20.main sample_world 30 "symbols.csv" "data"
  = ([ReadCsv "symbols.csv"; Download "GOOD.NS" 738856 738886;
      Download "BAD.NS" 738856 738886],
     Raised (Pipeline (DownloadError "BAD.NS")))
  ∧ (V20.main sample_world_ok 30 "symbols.csv" "data").1
    = [MakeDirs "data"; ReadCsv "symbols.csv";
       Download "GOOD.NS" 738856 738886; Download "ALSO.NS" 738856 738886;
       ToCsv "data/Combined_stock_data.csv"
         [mkSummary "GOOD" (Fin 9) (Fin 15) (Some 1%Z)
            (S754_finite false 4691249611844266 (-46)) "green_1";
          mkSummary "ALSO.NS" (Fin 9) (Fin 15) (Some 1%Z)
            (S754_finite false 4691249611844266 (-46)) "green_1"];
       Print "Data for Combined fetched and saved to data/Combined_stock_data.csv."].
Proof. split; vm_compute; reflexivity. Qed.

Lemma to_csv_not_before_saving w (start_date end_date : Z) (output_dir csv_file : string)
    (symbols : list string) path (data : list Summary) :
  ToCsv path data ∉
    dir_events w output_dir ++ [ReadCsv csv_file] ++
    ((λ s, Download (ticker_of s) start_date end_date) <$> symbols).
Proof.
  rewrite !elem_of_app, list_elem_of_fmap. unfold dir_events.
  intros [Hin|[Hin|(s & Hs & _)]]; [|by apply list_elem_of_singleton in Hin|done].
  destruct (os_path_exists w output_dir).
  - by apply elem_of_nil in Hin.
  - by apply list_elem_of_singleton in Hin.
Qed.

(** Whatever the world answers, [main] of [v20.py] writes nothing but the
    complete combined frame: a file it writes is
    [Combined_stock_data.csv] in the output directory, and its content is
    what [main] computes from all the symbols of the symbol file, every
    one of them fetched.  No file is written for a part of the batch. *)
Theorem v20_main_writes_only_combined w (n_days : Z) (csv_file output_dir : string)
    path (data : list Summary) :
  ToCsv path data ∈ (V20.main w n_days csv_file output_dir).1 →
  path = os_path_join output_dir "Combined_stock_data.csv" ∧
  ∃ df symbols,
    pd_read_csv w csv_file = Returned df ∧ df !! "symbol" = Some symbols ∧
    main (pandas_installed w) (yf_download w) (datetime_today w) n_days symbols
    = Ok data.
Proof.
  destruct (sub_days (datetime_today w) n_days) as [start_date|e0] eqn:Hdates.
  2:{ unfold V20.main. cbv zeta. rewrite Hdates. io_step.
      by intros ?%elem_of_nil. }
  assert (dir_ready w output_dir ∨ ¬ dir_ready w output_dir) as [Hdir|Hdir].
  { unfold dir_ready. destruct (os_path_exists w output_dir); [by left; left|].
    destruct (os_makedirs w output_dir) as [[]|e]; [by left; right|].
    right. by intros [?|?]. }
  2:{ unfold V20.main, dir_ready in *. cbv zeta. rewrite Hdates. io_step.
      destruct (os_path_exists w output_dir); [by destruct Hdir; left|].
      destruct (os_makedirs w output_dir) as [[]|e]; [by destruct Hdir; right|].
      io_step. by intros ?%list_elem_of_singleton. }
  destruct (pd_read_csv w csv_file) as [df|e] eqn:Hread.
  2:{ unfold V20.main. cbv zeta. rewrite Hdates. io_step.
      rewrite dir_check_ready by done. unfold V20.read_symbols_from_csv.
      io_step. rewrite Hread. io_step.
      intros Hin. exfalso.
      apply (to_csv_not_before_saving w 0 0 output_dir csv_file [] path data).
      by rewrite fmap_nil, !app_nil_r. }
  destruct (df !! "symbol") as [symbols|] eqn:Hcolumn.
  2:{ unfold V20.main. cbv zeta. rewrite Hdates. io_step.
      rewrite dir_check_ready by done. unfold V20.read_symbols_from_csv.
      io_step. rewrite Hread. io_step. rewrite Hcolumn. io_step.
      intros Hin. exfalso.
      apply (to_csv_not_before_saving w 0 0 output_dir csv_file [] path data).
      by rewrite fmap_nil, !app_nil_r. }
  rewrite (v20_main_closed_form w n_days start_date csv_file output_dir df symbols)
    by done.
  cbv zeta.
  destruct (main _ _ _ _ _) as [combined|e] eqn:Hmain.
  - intros Hin.
    assert (path = os_path_join output_dir "Combined_stock_data.csv" ∧ data = combined)
      as [-> ->].
    { destruct (to_csv w _) as [u|e]; cbn [fst] in Hin;
        apply elem_of_app in Hin as [Hin|Hin];
        try (by apply to_csv_not_before_saving in Hin);
        rewrite !elem_of_cons in Hin; destruct_or!; simplify_eq; try done;
        by apply elem_of_nil in Hin. }
    split; [done|]. by exists df, symbols.
  - cbn [fst]. by intros Hin%to_csv_not_before_saving.
Qed.

Lemma v20_main_writes_only_combined_witness :
  "data/Combined_stock_data.csv" = os_path_join "data" "Combined_stock_data.csv" ∧
  ∃ df symbols,
    pd_read_csv sample_world_ok "symbols.csv" = Returned df ∧
    df !! "symbol" = Some symbols ∧
    main (pandas_installed sample_world_ok) (yf_download sample_world_ok)
      (datetime_today sample_world_ok) 30 symbols
    = Ok [mkSummary "GOOD" (Fin 9) (Fin 15) (Some 1%Z)
            (S754_finite false 4691249611844266 (-46)) "green_1";
          mkSummary "ALSO.NS" (Fin 9) (Fin 15) (Some 1%Z)
            (S754_finite false 4691249611844266 (-46)) "green_1"].
Proof.
  apply (v20_main_writes_only_combined sample_world_ok 30 "symbols.csv" "data").
  vm_compute. do 4 apply list_elem_of_further. apply list_elem_of_here.
Defined.

(** A symbol file without a [symbol] column: [main] has made the
    directory and read the file when the lookup raises [KeyError]; nothing
    is downloaded and nothing is written. *)
Theorem v20_main_missing_symbol_column w (n_days start_date : Z)
    (csv_file output_dir : string) df :
  sub_days (datetime_today w) n_days = Ok start_date →
  dir_ready w output_dir →
  pd_read_csv w csv_file = Returned df → df !! "symbol" = None →
  V20.main w n_days csv_file output_dir
  = (dir_events w output_dir ++ [ReadCsv csv_file], Raised (KeyError "symbol")).
Proof.
  intros Hdates Hdir Hread Hcolumn. unfold V20.main. cbv zeta.
  rewrite Hdates. io_step.
  rewrite dir_check_ready by done. unfold V20.read_symbols_from_csv.
  io_step. rewrite Hread. io_step. rewrite Hcolumn. by io_step.
Qed.

Lemma v20_main_missing_symbol_column_witness :
  V20.main (mkWorld rejects_empty_frame 738886 (λ _, false) (λ _, Returned tt)
              (λ _, Returned {["Symbol" := ["GOOD"]]}) sample_download
              (λ _, Returned tt)) 30 "symbols.csv" "data"
  = (dir_events (mkWorld rejects_empty_frame 738886 (λ _, false) (λ _, Returned tt)
                   (λ _, Returned {["Symbol" := ["GOOD"]]}) sample_download
                   (λ _, Returned tt)) "data" ++ [ReadCsv "symbols.csv"],
     Raised (KeyError "symbol")).
Proof.
  apply (v20_main_missing_symbol_column _ 30 738856 "symbols.csv" "data"
           {["Symbol" := ["GOOD"]]}).
  - reflexivity.
  - by right.
  - reflexivity.
  - apply lookup_singleton_ne. done.
Defined.

Lemma attempted_when_loop_returns w (start_date : Z) (symbols : list string)
    acc combined :
  for_each symbols
    (main_body (pandas_installed w) (yf_download w) start_date (datetime_today w)) acc
  = Ok combined →
  attempted w start_date (datetime_today w) symbols = symbols.
Proof.
  revert acc. induction symbols as [|s symbols IH]; intros acc; [done|].
  cbn [for_each attempted]. unfold main_body at 1, fetch_stock_data.
  fold (ticker_of s).
  destruct (yf_download w (ticker_of s) _ _) as [[|quote quotes]|e]; [| |done].
  { cbn [bind fmap list_fmap]. by rewrite process_empty. }
  cbn [bind]. destruct (process _ _ _) as [out|e]; [|done]. cbn [bind].
  intros Hloop. f_equal. by eapply IH.
Qed.

(** A complete run of [v20.py]: when the dates can be computed, the
    directory is there or can be made, the symbol file has a [symbol]
    column, [main] without effects returns the combined frame and the
    write works, the trace is the directory check, the read of the symbol
    file, one download per symbol in the order of the file, one write of
    the combined frame to [Combined_stock_data.csv] in the output
    directory, and one printed line. *)
Theorem v20_main_complete_run w (n_days start_date : Z) (csv_file output_dir : string)
    df symbols combined :
  sub_days (datetime_today w) n_days = Ok start_date →
  dir_ready w output_dir →
  pd_read_csv w csv_file = Returned df → df !! "symbol" = Some symbols →
  main (pandas_installed w) (yf_download w) (datetime_today w) n_days symbols
  = Ok combined →
  to_csv w (os_path_join output_dir "Combined_stock_data.csv") = Returned tt →
  V20.main w n_days csv_file output_dir
  = (dir_events w output_dir ++ [ReadCsv csv_file] ++
       ((λ s, Download (ticker_of s) start_date (datetime_today w)) <$> symbols) ++
       [ToCsv (os_path_join output_dir "Combined_stock_data.csv") combined;
        Print ("Data for Combined fetched and saved to "
               +:+ os_path_join output_dir "Combined_stock_data.csv" +:+ ".")],
     Returned tt).
Proof.
  intros Hdates Hdir Hread Hcolumn Hmain Hwrite.
  rewrite (v20_main_closed_form w n_days start_date csv_file output_dir df symbols)
    by done.
  cbv zeta. rewrite Hmain, Hwrite.
  rewrite (main_loop _ _ _ n_days start_date Hdates) in Hmain.
  rewrite (attempted_when_loop_returns w start_date symbols [] combined) by done.
  by rewrite <-!(assoc_L (++)).
Qed.

Lemma v20_main_complete_run_witness :
  V20.main sample_world_ok 30 "symbols.csv" "data"
  = (dir_events sample_world_ok "data" ++ [ReadCsv "symbols.csv"] ++
       ((λ s, Download (ticker_of s) 738856 (datetime_today sample_world_ok))
          <$> ["GOOD"; "ALSO.NS"]) ++
       [ToCsv (os_path_join "data" "Combined_stock_data.csv")
          [mkSummary "GOOD" (Fin 9) (Fin 15) (Some 1%Z)
             (S754_finite false 4691249611844266 (-46)) "green_1";
           mkSummary "ALSO.NS" (Fin 9) (Fin 15) (Some 1%Z)
             (S754_finite false 4691249611844266 (-46)) "green_1"];
        Print ("Data for Combined fetched and saved to "
               +:+ os_path_join "data" "Combined_stock_data.csv" +:+ ".")],
     Returned tt).
Proof.
  apply (v20_main_complete_run sample_world_ok 30 738856 "symbols.csv" "data"
           {["symbol" := ["GOOD"; "ALSO.NS"]]}).
  - reflexivity.
  - by right.
  - reflexivity.
  - apply lookup_singleton_eq.
  - vm_compute. reflexivity.
  - reflexivity.
Defined.

(** C9, as the code has it.  [main] catches nothing: when the download
    raises for a symbol of the file, the run of [v20.py] ends there with
    that exception.  The symbols before it have been downloaded and
    processed, the symbols after it are not downloaded, the failure is not
    reported per symbol, and no combined frame is written: the records of
    the symbols that succeeded are lost. *)
Theorem main_raises_when_a_fetch_raises w (n_days start_date : Z)
    (csv_file output_dir : string) df before symbol after e :
  sub_days (datetime_today w) n_days = Ok start_date →
  dir_ready w output_dir →
  pd_read_csv w csv_file = Returned df →
  df !! "symbol" = Some (before ++ symbol :: after) →
  Forall (λ s, ∃ q, yf_download w (ticker_of s) start_date (datetime_today w) = Ok q
                    ∧ q ≠ []) before →
  yf_download w (ticker_of symbol) start_date (datetime_today w) = Raise e →
  main (pandas_installed w) (yf_download w) (datetime_today w) n_days
    (before ++ symbol :: after) = Raise e ∧
  V20.main w n_days csv_file output_dir
  = (dir_events w output_dir ++ [ReadCsv csv_file] ++
       ((λ s, Download (ticker_of s) start_date (datetime_today w))
          <$> before ++ [symbol]),
     Raised (Pipeline e)).
Proof.
  intros Hdates Hdir Hread Hcolumn Hbefore Hfail.
  assert (main (pandas_installed w) (yf_download w) (datetime_today w) n_days
            (before ++ symbol :: after) = Raise e) as Hmain.
  { apply (main_first_failure _ _ _ _ start_date Hdates before).
    - eapply Forall_impl; [apply Hbefore|]. intros s (q & Hq & Hne).
      unfold fetch_stock_data. fold (ticker_of s). rewrite Hq. cbn [bind].
      eexists. split; [done|]. by destruct q.
    - unfold fetch_stock_data. fold (ticker_of symbol). by rewrite Hfail. }
  split; [done|].
  rewrite (v20_main_closed_form w n_days start_date csv_file output_dir df
             (before ++ symbol :: after)) by done.
  cbv zeta. rewrite Hmain.
  by rewrite (attempted_first_failure _ _ _ before symbol after e).
Qed.

Lemma main_raises_when_a_fetch_raises_witness :
  main (pandas_installed sample_world) (yf_download sample_world)
    (datetime_today sample_world) 30 (["GOOD"] ++ "BAD" :: ["ALSO.NS"])
  = Raise (DownloadError "BAD.NS") ∧
  V20.main sample_world 30 "symbols.csv" "data"
  = (dir_events sample_world "data" ++ [ReadCsv "symbols.csv"] ++
       ((λ s, Download (ticker_of s) 738856 (datetime_today sample_world))
          <$> ["GOOD"] ++ ["BAD"]),
     Raised (Pipeline (DownloadError "BAD.NS"))).
Proof.
  apply (main_raises_when_a_fetch_raises sample_world 30 738856 "symbols.csv" "data"
           {["symbol" := ["GOOD"; "BAD"; "ALSO.NS"]]} ["GOOD"] "BAD" ["ALSO.NS"]).
  - reflexivity.
  - by left.
  - reflexivity.
  - apply lookup_singleton_eq.
  - repeat constructor. eexists. split; [reflexivity|done].
  - reflexivity.
Defined.

(** When the dates cannot be computed ([n_days] beyond what [timedelta]
    takes, or a start date outside the calendar), both scripts raise
    [OverflowError] before anything else is done: no directory is made,
    no file read, nothing downloaded. *)
Theorem scripts_date_overflow w (n_days : Z) :
  ¬ (Z.abs n_days ≤ 999999999 ∧ 1 ≤ datetime_today w - n_days ≤ 3652059)%Z →
  (∀ csv_file output_dir,
     V20.main w n_days csv_file output_dir = ([], Raised (Pipeline OverflowError))) ∧
  (∀ symbols output_dir,
     FetchStockData.fetch_and_save_stock_data w symbols n_days output_dir
     = ([], Raised (Pipeline OverflowError))).
Proof.
  intros Hrange.
  assert (sub_days (datetime_today w) n_days = Raise OverflowError) as Hdates.
  { unfold sub_days. case_bool_decide as H1; [|done].
    case_bool_decide as H2; [|done]. by destruct Hrange. }
  split; intros.
  - unfold V20.main. cbv zeta. by rewrite Hdates.
  - unfold FetchStockData.fetch_and_save_stock_data. cbv zeta. by rewrite Hdates.
Qed.

Lemma scripts_date_overflow_witness :
  (∀ csv_file output_dir,
     V20.main sample_world 800000 csv_file output_dir
     = ([], Raised (Pipeline OverflowError))) ∧
  (∀ symbols output_dir,
     FetchStockData.fetch_and_save_stock_data sample_world symbols 800000 output_dir
     = ([], Raised (Pipeline OverflowError))).
Proof.
  apply (scripts_date_overflow sample_world 800000). vm_compute.
  intros [_ [H _]]. by apply H.
Defined.

(** ** [fetch_stock_data.py] *)

(** The loop of [fetch_and_save_stock_data] over symbols whose download
    and write both work: three events per symbol, then the rest of the
    loop. *)
Lemma fetch_loop_saved w (start_date end_date : Z) (output_dir : string)
    (before rest : list string) :
  Forall (λ s, (∃ q, yf_download w (ticker_of s) start_date end_date = Ok q) ∧
               to_csv w (csv_path output_dir (ticker_of s)) = Returned tt) before →
  ∀ body : string → unit → io (list Quote) unit,
  body = (λ symbol _,
    let symbol := if endswith symbol ".NS" then symbol else symbol +:+ ".NS" in
    let! stock_data :=
      call (Download symbol start_date end_date)
        (of_result (yf_download w symbol start_date end_date)) in
    let csv_file_path :=
      os_path_join output_dir (split_dot_0 symbol +:+ "_stock_data.csv") in
    let! _ := call (ToCsv csv_file_path stock_data) (to_csv w csv_file_path) in
    call (Print ("Data for " +:+ symbol +:+ " fetched and saved to "
                 +:+ csv_file_path +:+ "."))
      (Returned tt)) →
  for_io (before ++ rest) body tt
  = (concat (saved_events w start_date end_date output_dir <$> before)
       ++ (for_io rest body tt).1,
     (for_io rest body tt).2).
Proof.
  intros Hbefore body Hbody.
  induction Hbefore as [|s before [[q Hq] Hwrite] _ IH].
  - rewrite fmap_nil. cbn [app concat]. by destruct (for_io rest body tt).
  - assert (body s tt = (saved_events w start_date end_date output_dir s, Returned tt))
      as Hs.
    { unfold saved_events. rewrite Hbody. cbv zeta.
      fold (ticker_of s). fold (csv_path output_dir (ticker_of s)).
      rewrite Hq, Hwrite. by io_step. }
    cbn [app for_io]. rewrite Hs. io_step. rewrite IH.
    rewrite fmap_cons. cbn [concat fst snd]. by rewrite <-(assoc_L (++)).
Qed.

(** A complete run of [fetch_and_save_stock_data]: when the directory is
    there or can be made and every download and every write works, the
    trace is the directory check and then, symbol by symbol in the order
    given, the download of the ticker, the write of what came back to the
    symbol's file and one printed line.  Unlike [v20.py], each symbol's
    data is on disk before the next symbol is asked for. *)
Theorem fetch_and_save_complete_run w (symbols : list string) (n_days start_date : Z)
    (output_dir : string) :
  sub_days (datetime_today w) n_days = Ok start_date →
  dir_ready w output_dir →
  Forall (λ s, (∃ q, yf_download w (ticker_of s) start_date
                       (datetime_today w) = Ok q) ∧
               to_csv w (csv_path output_dir (ticker_of s)) = Returned tt) symbols →
  FetchStockData.fetch_and_save_stock_data w symbols n_days output_dir
  = (dir_events w output_dir ++
       concat (saved_events w start_date (datetime_today w)
                 output_dir <$> symbols),
     Returned tt).
Proof.
  intros Hdates Hdir Hsymbols. unfold FetchStockData.fetch_and_save_stock_data. cbv zeta.
  rewrite Hdates. io_step. rewrite dir_check_ready by done. io_step.
  rewrite <-(app_nil_r symbols) at 1 2.
  erewrite fetch_loop_saved; [|done|reflexivity].
  cbn [for_io io_ret fst snd]. by rewrite app_nil_r.
Qed.

Lemma fetch_and_save_complete_run_witness :
  FetchStockData.fetch_and_save_stock_data sample_world_ok ["GOOD"; "ALSO.NS"] 30 "Data"
  = (dir_events sample_world_ok "Data" ++
       concat (saved_events sample_world_ok 738856
                 (datetime_today sample_world_ok) "Data" <$> ["GOOD"; "ALSO.NS"]),
     Returned tt).
Proof.
  apply (fetch_and_save_complete_run sample_world_ok ["GOOD"; "ALSO.NS"] 30 738856
           "Data").
  - reflexivity.
  - by right.
  - repeat constructor; eexists; reflexivity.
Defined.

(** A download that raises ends [fetch_and_save_stock_data] on the spot,
    but what was saved stays saved: the files of the symbols before it
    have been written and announced, the failing ticker has only been
    asked for, the symbols after it are never touched. *)
Theorem fetch_and_save_download_failure w (before : list string) (symbol : string)
    (after : list string) (n_days start_date : Z) (output_dir : string) e :
  sub_days (datetime_today w) n_days = Ok start_date →
  dir_ready w output_dir →
  Forall (λ s, (∃ q, yf_download w (ticker_of s) start_date
                       (datetime_today w) = Ok q) ∧
               to_csv w (csv_path output_dir (ticker_of s)) = Returned tt) before →
  yf_download w (ticker_of symbol) start_date (datetime_today w)
  = Raise e →
  FetchStockData.fetch_and_save_stock_data w (before ++ symbol :: after) n_days output_dir
  = (dir_events w output_dir ++
       concat (saved_events w start_date (datetime_today w)
                 output_dir <$> before) ++
       [Download (ticker_of symbol) start_date (datetime_today w)],
     Raised (Pipeline e)).
Proof.
  intros Hdates Hdir Hbefore Hfail. unfold FetchStockData.fetch_and_save_stock_data. cbv zeta.
  rewrite Hdates. io_step. rewrite dir_check_ready by done. io_step.
  erewrite fetch_loop_saved; [|done|reflexivity].
  cbn [for_io]. fold (ticker_of symbol). rewrite Hfail. by io_step.
Qed.

Lemma fetch_and_save_download_failure_witness :
  FetchStockData.fetch_and_save_stock_data sample_world (["GOOD"] ++ "BAD" :: ["ALSO.NS"])
    30 "Data"
  = (dir_events sample_world "Data" ++
       concat (saved_events sample_world 738856
                 (datetime_today sample_world) "Data" <$> ["GOOD"]) ++
       [Download (ticker_of "BAD") 738856
          (datetime_today sample_world)],
     Raised (Pipeline (DownloadError "BAD.NS"))).
Proof.
  apply (fetch_and_save_download_failure sample_world ["GOOD"] "BAD" ["ALSO.NS"] 30
           738856 "Data").
  - reflexivity.
  - by left.
  - repeat constructor; eexists; reflexivity.
  - reflexivity.
Defined.



Lemma split_dot_0_app_dot (s rest : string) :
  split_dot_0 (s +:+ String "."%char rest) = split_dot_0 s.
Proof.
  induction s as [|c s IH]; [done|]. simpl.
  destruct (Ascii.eqb c "."%char); [done|]. f_equal. apply IH.
Qed.

(** The file a symbol's data goes to is named after what comes before the
    first dot of the symbol, whether or not the [.NS] suffix had to be
    added for the download: the suffix never reaches the file name, and
    two symbols that agree before their first dot are written to the same
    file of the output directory. *)
Theorem fetch_and_save_file_name (output_dir symbol : string) :
  csv_path output_dir (ticker_of symbol) = csv_path output_dir symbol ∧
  String.prefix (split_dot_0 symbol) symbol = true ∧
  str_in "." (split_dot_0 symbol) = false ∧
  ∀ symbol', split_dot_0 symbol' = split_dot_0 symbol →
    csv_path output_dir (ticker_of symbol') = csv_path output_dir (ticker_of symbol).
Proof.
  assert (∀ s, split_dot_0 (ticker_of s) = split_dot_0 s) as Hstem.
  { intros s. unfold ticker_of. destruct (endswith s ".NS"); [done|].
    apply split_dot_0_app_dot. }
  split_and!.
  - unfold csv_path. by rewrite Hstem.
  - induction symbol as [|c symbol IH]; [done|]. cbn [split_dot_0].
    destruct (Ascii.eqb c "."%char) eqn:Hc; [done|]. cbn [String.prefix].
    destruct (ascii_dec c c); [apply IH|done].
  - induction symbol as [|c symbol IH]; [done|]. cbn [split_dot_0].
    destruct (Ascii.eqb c "."%char) eqn:Hc; [done|].
    cbn [str_in String.prefix]. destruct (ascii_dec "."%char c) as [<-|_]; [done|].
    apply IH.
  - intros symbol' Hsame. unfold csv_path. by rewrite !Hstem, Hsame.
Qed.

(** ** [calculate_percentage_differences] on any frame *)

Lemma length_filter_split {A} (P : A → Prop) `{∀ x, Decision (P x)} (l : list A) :
  length l = length (filter P l) + length (filter (λ a, ¬ P a) l).
Proof.
  induction l as [|a l IH]; [done|]. rewrite !filter_cons.
  destruct (decide (P a)).
  - rewrite decide_False by auto. simpl. lia.
  - rewrite decide_True by auto. simpl. lia.
Qed.

Lemma length_concat_groups {A K C} `{EqDecision K} (key : A → K) (h : K → C)
    (ks : list K) (l : list A) :
  NoDup ks → (∀ a, a ∈ l → key a ∈ ks) →
  length (concat ((λ k, replicate (length (filter (λ a, key a = k) l)) (h k)) <$> ks))
  = length l.
Proof.
  intros Hnodup. revert l. induction Hnodup as [|k ks Hk _ IH]; intros l Hl.
  - destruct l as [|a l]; [done|]. by destruct (not_elem_of_nil (key a)); apply Hl; left.
  - rewrite fmap_cons. cbn [concat]. rewrite length_app, length_replicate.
    rewrite (length_filter_split (λ a, key a = k) l). f_equal.
    rewrite <-(IH (filter (λ a, ¬ key a = k) l)).
    + f_equal. f_equal. apply Forall_fmap_ext, Forall_forall. intros k' Hk'.
      f_equal. f_equal. symmetry. apply list_filter_filter_l.
      intros a Ha Hak. apply Hk. by rewrite <-Hak, Ha.
    + intros a [Hne Ha]%list_elem_of_filter.
      specialize (Hl a Ha). apply elem_of_cons in Hl as [?|?]; done.
Qed.

(** [calculate_percentage_differences] returns on every frame, whatever
    its [GroupID] column: the list it builds has one value per row, so the
    column assignment cannot fail.  The values are laid out group by
    group, in order of first appearance of the ids, and then attached to
    the rows by position: a row gets the value of its own group only as
    far as the rows of a group are next to each other. *)
Theorem calculate_percentage_differences_any_frame (d : list Grouped) :
  ∃ d', calculate_percentage_differences d = Ok d' ∧
    col d' grouped = d ∧
    col d' PercentageDifference
    = concat ((λ group_id,
                 let group_data := filter (λ row, GroupID row = group_id) d in
                 let lowest_low := series_min (col group_data (λ row, Low row)) in
                 let highest_high := series_max (col group_data (λ row, High row)) in
                 replicate (length group_data)
                   (fmul (fdiv (fsub highest_high lowest_low) lowest_low) (Fin 100)))
              <$> unique (col d GroupID)).
Proof.
  unfold calculate_percentage_differences.
  set (h := λ group_id : nat,
         let group_data := filter (λ row : Grouped, GroupID row = group_id) d in
         let lowest_low := series_min (col group_data (λ row, Low row)) in
         let highest_high := series_max (col group_data (λ row, High row)) in
         fmul (fdiv (fsub highest_high lowest_low) lowest_low) (Fin 100)).
  rewrite (for_each_append _ _
             (λ g, replicate (length (filter (λ row : Grouped, GroupID row = g) d)) (h g)))
    by done.
  cbn [bind app]. unfold set_column.
  assert (length (concat ((λ g, replicate (length (filter (λ row : Grouped, GroupID row = g) d))
                                  (h g)) <$> unique (col d GroupID))) = length d) as Hlen.
  { apply length_concat_groups; [apply NoDup_unique|].
    intros a Ha. apply elem_of_unique. unfold col. by apply list_elem_of_fmap_2. }
  rewrite decide_True by done. eexists. split; [done|]. unfold col in *. split.
  - apply fmap_zip_with_l; [done|]. by rewrite Hlen.
  - apply fmap_zip_with_r; [done|]. apply Nat.eq_le_incl. exact Hlen.
Qed.
